(** * blog.antoni.ai: the site configuration, the posts and the route
      helpers shown in the posts

    The repository is a Deno entry file [main.js] that hands one object
    literal to the blog engine it imports, and a directory of markdown
    posts.  One post, "Describing URL Routes in Frontend Apps", carries
    TypeScript samples ([joinIfPresent], [getRoutes], [useRoutes]); they are
    embedded here as the functions they define. *)

From Stdlib Require Import String Ascii List Bool Arith Lia.
Import ListNotations.
Local Open Scope list_scope.
Local Open Scope string_scope.

(** ** JavaScript strings and optional parameters *)

(** A parameter declared [x?: string] holds a string or [undefined]:
    [None] stands for [undefined]. *)
Definition optional (A : Type) : Type := option A.

Definition is_empty (s : string) : bool :=
  match s with
  | EmptyString => true
  | String _ _ => false
  end.

(** [ToBoolean] on a value of type [string | undefined]: [undefined] and the
    empty string are falsy, every other string is truthy. *)
Definition truthy (v : optional string) : bool :=
  match v with
  | None => false
  | Some s => negb (is_empty s)
  end.

(** A parameter with a default, [(x = d)]: the default replaces
    [undefined] only. *)
Definition with_default (d : string) (v : optional string) : string :=
  match v with
  | None => d
  | Some s => s
  end.

(** [ToString], as a template literal applies it to [${x}]. *)
Definition to_string (v : optional string) : string :=
  match v with
  | None => "undefined"
  | Some s => s
  end.

(** [===] and [==] on two strings both compare the contents. *)
Definition str_eq (a b : string) : bool := String.eqb a b.

(** ** The route samples of the URL-routes post *)

(** "With optional dynamic parameters". *)
Module OptionalParams.

(** [const joinIfPresent = (base: string, str?: string) =>
       str ? `${base}${str}` : base;] *)
Definition joinIfPresent (base : string) (str : optional string) : string :=
  if truthy str then base ++ to_string str else base.

(** The argument object [{ id, slug }: { id: string; slug?: string }]. *)
Record ById_args : Type := mkArgs {
  id : string;
  slug : optional string
}.

Record Users : Type := mkUsers {
  index : string;
  byId : ById_args -> string
}.

Record Routes : Type := mkRoutes { users : Users }.

Definition ROUTES : Routes :=
  {| users :=
       {| index := "/users";
          byId := fun a => "/users/" ++ id a ++ joinIfPresent "/" (slug a) |}
  |}.

End OptionalParams.

(** The route table that [getRoutes] and [useRoutes] return. *)
Record LocalUsers : Type := mkLocalUsers {
  index : string;
  byId : string -> string
}.

Record LocalRoutes : Type := mkLocalRoutes { users : LocalUsers }.

(** "With global dynamic parameters". *)
Module GlobalParams.

(** [const getRoutes = (locale?: string = "en") => {
       const l = locale === "en" ? "" : `/${locale}`;
       return { users: { index: `${l}/users`,
                         byId: (id: string) => `${l}/users/${id}` } }; }] *)
Definition getRoutes (locale : optional string) : LocalRoutes :=
  let locale := with_default "en" locale in
  let l := if str_eq locale "en" then EmptyString else "/" ++ locale in
  {| users :=
       {| index := l ++ "/users";
          byId := fun id => l ++ "/users/" ++ id |}
  |}.

End GlobalParams.

(** "With hooks inside": the sample defines [getRoutes] again, with the same
    text, and [useRoutes] on top of it. *)
Module HooksInside.

Definition getRoutes (locale : optional string) : LocalRoutes :=
  let locale := with_default "en" locale in
  let l := if str_eq locale "en" then EmptyString else "/" ++ locale in
  {| users :=
       {| index := l ++ "/users";
          byId := fun id => l ++ "/users/" ++ id |}
  |}.

Section WithLocaleHook.

(** The hook [useLocale] is supplied by the application. *)
Variable useLocale : unit -> string.

(** [const useRoutes = () => {
       const locale = useLocale();
       const l = locale == "en" ? "" : `/${locale}`;
       return getRoutes(l); }] *)
Definition useRoutes (_ : unit) : LocalRoutes :=
  let locale := useLocale tt in
  let l := if str_eq locale "en" then EmptyString else "/" ++ locale in
  getRoutes (Some l).

(** [<a href={routes.users.byId("1234")} />] inside [YourComponent]. *)
Definition YourComponent_href (_ : unit) : string :=
  let routes := useRoutes tt in
  byId (users routes) "1234".

End WithLocaleHook.

End HooksInside.

(** "With dynamic parameters": [byId: (id: string) => `/users/${id}`]. *)
Module DynamicParams.

Record Users : Type := mkUsers {
  index : string;
  byId : string -> string
}.

Record Routes : Type := mkRoutes { users : Users }.

Definition ROUTES : Routes :=
  {| users :=
       {| index := "/users";
          byId := fun id => "/users/" ++ id |}
  |}.

End DynamicParams.

(** The same sample with an argument object:
    [byId: ({ id }: { id: string }) => `/users/${id}`]. *)
Module DynamicParamsObject.

Record ById_args : Type := mkArgs { id : string }.

Record Users : Type := mkUsers {
  index : string;
  byId : ById_args -> string
}.

Record Routes : Type := mkRoutes { users : Users }.

Definition ROUTES : Routes :=
  {| users :=
       {| index := "/users";
          byId := fun a => "/users/" ++ id a |}
  |}.

End DynamicParamsObject.

(** "With multiple dynamic parameters":
    [byId: (id: string) => { return {
       bySlug: (slug: string) => `/users/${id}/${slug}` }; }]. *)
Module MultipleParams.

Record ById_result : Type := mkById { bySlug : string -> string }.

Record Users : Type := mkUsers {
  index : string;
  byId : string -> ById_result
}.

Record Routes : Type := mkRoutes { users : Users }.

Definition ROUTES : Routes :=
  {| users :=
       {| index := "/users";
          byId := fun id =>
                    {| bySlug := fun slug => "/users/" ++ id ++ "/" ++ slug |} |}
  |}.

End MultipleParams.

(** The second sample of that section:
    [byUserData: (user: UserData) => `/u/${user.username}/${user.id}`].
    The post does not declare [UserData]: the type is a parameter, together
    with the text that the template literal makes of each of the two
    properties it reads. *)
Module PublicUrl.

Section WithUserData.

Variable UserData : Type.
Variable username : UserData -> string.
Variable id : UserData -> string.

Record PublicUrl : Type := mkPublicUrl { byUserData : UserData -> string }.

Record User : Type := mkUser { publicUrl : PublicUrl }.

Record Routes : Type := mkRoutes { user : User }.

Definition ROUTES : Routes :=
  {| user :=
       {| publicUrl :=
            {| byUserData :=
                 fun u => "/u/" ++ username u ++ "/" ++ id u |} |}
  |}.

End WithUserData.

End PublicUrl.

(** "With mid-route dynamic parameters":
    [byId: ({ id }: { id: string }) => { return {
       settings: `/users/${id}/settings`,
       account: `/users/${id}/account` }; }]. *)
Module MidRoute.

Record ById_args : Type := mkArgs { id : string }.

Record ById_result : Type := mkById {
  settings : string;
  account : string
}.

Record Users : Type := mkUsers {
  index : string;
  byId : ById_args -> ById_result
}.

Record Routes : Type := mkRoutes { users : Users }.

Definition ROUTES : Routes :=
  {| users :=
       {| index := "/users";
          byId := fun a =>
                    {| settings := "/users/" ++ id a ++ "/settings";
                       account := "/users/" ++ id a ++ "/account" |} |}
  |}.

End MidRoute.

(** A path segment: a string with no slash in it. *)
Fixpoint no_slash (s : string) : bool :=
  match s with
  | EmptyString => true
  | String c rest => negb (Ascii.eqb c "/") && no_slash rest
  end.

(** ** The posts *)

Definition LF : ascii := "010"%char.

(** The double-quote character, for the quoted text inside the posts. *)
Definition dq : string := String "034"%char EmptyString.

(** A text file is its lines, each closed by a line feed. *)
Definition unlines (ls : list string) : string :=
  fold_right (fun l acc => l ++ String LF acc) EmptyString ls.

Fixpoint split_lines (s : string) : list string :=
  match s with
  | EmptyString => []
  | String c rest =>
      if Ascii.eqb c LF then EmptyString :: split_lines rest
      else match split_lines rest with
           | [] => [String c EmptyString]
           | l :: ls => String c l :: ls
           end
  end.

Fixpoint has_lf (s : string) : bool :=
  match s with
  | EmptyString => false
  | String c rest => Ascii.eqb c LF || has_lf rest
  end.

Module Posts.

(** [posts/describing-url-routes-in-frontend-apps.md] *)
Definition describing_url_routes_in_frontend_apps_md_lines : list string := [
  "---";
  "title:  Describing URL Routes in Frontend Apps";
  "publish_date: 2023-06-25";
  "---";
  EmptyString;
  "> This guide describes a better way to handle URL routes in frontend";
  "> applications. It suggests using a JavaScript/TypeScript definition to describe";
  "> the URL, making it look complex if it simplifies the user's life, and avoiding";
  "> lifetime hooks. The guide provides examples of defining routes with dynamic";
  "> parameters, multiple dynamic parameters, optional dynamic parameters,";
  "> mid-route dynamic parameters, global dynamic parameters, and hooks inside.";
  EmptyString;
  "## Introduction";
  EmptyString;
  "Tracking all the routes you have in your frontend application can be difficult.";
  "The first time developers need to link between pages usually results in URLs";
  "that are defined inline, just passed as an `href` to the link component. This";
  "results in a lot of problems later on when someone needs to update the route";
  "path, or when someone accidentally mistypes the link URL. With time developers";
  "start to realise that there’s a better way to deal with accessing URLs in their";
  "applications.";
  EmptyString;
  "In this guide I’m aiming document my experience with defining web app routes.";
  "There are a couple of fundamental principles that you should keep in mind when";
  "defining routes:";
  EmptyString;
  "- JavaScript/TypeScript definition should describe what URL you will get.";
  "- Don’t be afraid to make it look complex if it simplifies life of it’s user.";
  "- Try to go as static as possible. Depending on lifetime hooks is usually a bad";
  "  idea.";
  EmptyString;
  "## Basic example";
  EmptyString;
  "Lets start with the most simple example you will need. If your application does";
  "not have any dynamic routes, this might be all you will need.";
  EmptyString;
  "```jsx";
  "const ROUTES = {";
  "  index: " ++ dq ++ "/" ++ dq ++ ",";
  "  books: " ++ dq ++ "/books" ++ dq;
  "  users: {";
  "    index: " ++ dq ++ "/users" ++ dq ++ ",";
  "    me: " ++ dq ++ "/users/me" ++ dq ++ ",";
  "  },";
  "  externalLink: " ++ dq ++ "https://quassum.com/" ++ dq;
  "}";
  EmptyString;
  "ROUTES.books       // -> /books";
  "ROUTES.users.index // -> /users";
  "ROUTES.users.me    // -> /users/me";
  "```";
  EmptyString;
  "Every route level get’s their own object here. The root level routes stay in the";
  "root level object. As soon as there are nested routes we add another object. In";
  "this case you can see that since `/users` have a nested route `/users/me`";
  "everything that starts with `/users` goes into its’ own object. For the `/users`";
  "route itself we add `index` key that corresponds with the way browsers deal with";
  "the `index.html` file.";
  EmptyString;
  "## With dynamic parameters";
  EmptyString;
  "The next step in the route definition journey are the dynamic routes. As soon as";
  "you will have data coming from a database you will most likely need dynamic";
  "routes. This is solved with a simple function. With TypeScript it’s also";
  "type-safe!";
  EmptyString;
  "```jsx";
  "const ROUTES = {";
  "  users: {";
  "    index: " ++ dq ++ "/users" ++ dq ++ ",";
  "    byId: (id: string) => `/users/${id}`,";
  "  }";
  "}";
  EmptyString;
  "ROUTES.users.byId('1234') // -> /users/1234";
  "```";
  EmptyString;
  "Dynamic routes become easy to handle with this setup. Every time you want to";
  "access a user by their ID you have to use `byId` function, which reminds you";
  "that you need to pass an `id` which has to be of type `string`.";
  EmptyString;
  "You can also use objects instead of regular parameters…";
  EmptyString;
  "```tsx";
  "const ROUTES = {";
  "  users: {";
  "    index: " ++ dq ++ "/users" ++ dq ++ ",";
  "    byId: ({ id }: { id: string }) => `/users/${id}`,";
  "  },";
  "};";
  EmptyString;
  "ROUTES.users.byId({ id: " ++ dq ++ "1234" ++ dq ++ " }); // -> /users/1234";
  "```";
  EmptyString;
  "## With multiple dynamic parameters";
  EmptyString;
  "Naturally, it becomes slightly more complex when you have multiple dynamic";
  "segments. But nothings that we cannot manage.";
  EmptyString;
  "```tsx";
  "const ROUTES = {";
  "  users: {";
  "    index: " ++ dq ++ "/users" ++ dq ++ ",";
  "    byId: (id: string) => {";
  "      return {";
  "        bySlug: (slug: string) => `/users/${id}/${slug}`,";
  "      };";
  "    },";
  "  },";
  "};";
  EmptyString;
  "ROUTES.users.byId(" ++ dq ++ "1234" ++ dq ++ ").bySlug(" ++ dq ++ "something" ++ dq ++ "); // -> /users/1234/something";
  "```";
  EmptyString;
  "Here, instead of returning the URL from `byId` straight away, we return an";
  "object with another function you can call. In this case you just chain these";
  "function calls and you get a nicely formatted URL.";
  EmptyString;
  "Don’t forget that in these dynamic segments you are not forced to pass simple";
  "types through parameters. You could have a function that takes a whole object";
  "and just returns one string, joining multiple properties from that object into";
  "url. For example, you could have URL defined form user data:";
  EmptyString;
  "```tsx";
  "const ROUTES = {";
  "  user: {";
  "    publicUrl: {";
  "      byUserData: (user: UserData) => `/u/${user.username}/${user.id}`,";
  "    },";
  "  },";
  "};";
  "```";
  EmptyString;
  "The main thing to keep in mind here is the first principle that I’ve described";
  "in the intro. Your structure should explain to it’s user how the URL will look";
  "like. Try to avoid cases where you just have: `userById` but then return a url";
  "that looks like this: `/user/info/something/[id]/something-else`";
  EmptyString;
  "## With optional dynamic parameters";
  EmptyString;
  "Having optional parameters is also quite simple. You can achieve this by either";
  "having optional parameters or optional property in an object. The only thing you";
  "have to keep in mind is how you manage the cases when that parameter is not";
  "passed in.";
  EmptyString;
  "```tsx";
  "const joinIfPresent = (base: string, str?: string) =>";
  "  str ? `${base}${str}` : base;";
  EmptyString;
  "const ROUTES = {";
  "  users: {";
  "    index: " ++ dq ++ "/users" ++ dq ++ ",";
  "    byId: ({ id, slug }: { id: string; slug?: string }) =>";
  "      `/users/${id}${joinIfPresent(" ++ dq ++ "/" ++ dq ++ ", slug)}`,";
  "  },";
  "};";
  "```";
  EmptyString;
  "## With mid-route dynamic parameters";
  EmptyString;
  "This one is quite simple, but important to show. If you have a the dynamic";
  "segment somewhere in the middle of the route. This is how you handle it.";
  EmptyString;
  "```tsx";
  "const ROUTES = {";
  "  users: {";
  "    index: " ++ dq ++ "/users" ++ dq ++ ",";
  "    byId: ({ id }: { id: string }) => {";
  "      return {";
  "        settings: `/users/${id}/settings`,";
  "        account: `/users/${id}/account`,";
  "      };";
  "    },";
  "  },";
  "};";
  "```";
  EmptyString;
  "## With global dynamic parameters";
  EmptyString;
  "Sometimes you need to have global parameter. In this case it’s locale of your";
  "URL. If you provide locale, it will be available throughout the routes. The fact";
  "that you have to pass it into the localisation strings manually might look like";
  "not the best solution, but remember, we might have external links here, or some";
  "links might not be localised. When doing it manually we ensure that it’s exactly";
  "where it’s supposed to be, while enabling flexibility to modify the URL";
  "structure.";
  EmptyString;
  "```tsx";
  "const getRoutes = (locale?: string = " ++ dq ++ "en" ++ dq ++ ") => {";
  "  const l = locale === " ++ dq ++ "en" ++ dq ++ " ? " ++ dq ++ dq ++ " : `/${locale}`;";
  EmptyString;
  "  return {";
  "    users: {";
  "      index: `${l}/users`,";
  "      byId: (id: string) => `${l}/users/${id}`,";
  "    },";
  "  };";
  "};";
  "```";
  EmptyString;
  "## With hooks inside";
  EmptyString;
  "Now, `getRoutes` should be preferred when it comes to providing global";
  "variables, but sometimes it makes sense to use hooks instead. When you can only";
  "access certain data from a hook, it might be fine to convert your `getRoutes` to";
  "`useRoutes` and put the hook you depend on inside.";
  EmptyString;
  "The main thing to keep in mind here is that you have to make sure that your";
  "hooks work reliably on the server side. If you don’t, you will encounter";
  "hydration errors, so make sure that data matches between server and client side.";
  EmptyString;
  "```tsx";
  "const getRoutes = (locale?: string = " ++ dq ++ "en" ++ dq ++ ") => {";
  "  const l = locale === " ++ dq ++ "en" ++ dq ++ " ? " ++ dq ++ dq ++ " : `/${locale}`;";
  EmptyString;
  "  return {";
  "    users: {";
  "      index: `${l}/users`,";
  "      byId: (id: string) => `${l}/users/${id}`,";
  "    },";
  "  };";
  "};";
  EmptyString;
  "const useRoutes = () => {";
  "  const locale = useLocale();";
  "  const l = locale == " ++ dq ++ "en" ++ dq ++ " ? " ++ dq ++ dq ++ " : `/${locale}`;";
  EmptyString;
  "  return getRoutes(l);";
  "};";
  EmptyString;
  "// In your component";
  "const YourComponent = () => {";
  "  const routes = useRoutes();";
  EmptyString;
  "  // when locale is " ++ dq ++ "de" ++ dq ++ ", then it links to: /de/users/1234";
  "  return <a href={routes.users.byId(" ++ dq ++ "1234" ++ dq ++ ")} />;";
  "};";
  "```";
  EmptyString;
  "## Summary";
  EmptyString;
  "The examples in this guide offer most of the use cases you will need for a";
  "centralised route definition. Feel free to use this guide as a look up";
  "cheatsheet."
].

(** [posts/modern-react-snippets.md] *)
Definition modern_react_snippets_md_lines : list string := [
  "---";
  "title: Modern and Useful React Snippets";
  "publish_date: 2023-05-29";
  "---";
  EmptyString;
  "## TailwindCSS type-safe component";
  EmptyString;
  "> **TIP:** Select " ++ dq ++ "MyComponent" ++ dq ++ " in VSCode and press `cmd + d` several times to";
  "> select all occurances of " ++ dq ++ "MyComponent" ++ dq ++ ". Then type in the name of your";
  "> component.";
  EmptyString;
  "```tsx";
  "import { cn } from " ++ dq ++ "@/lib/utils" ++ dq ++ ";";
  EmptyString;
  "interface MyComponentProps extends React.ComponentProps<" ++ dq ++ "div" ++ dq ++ "> {";
  "  // Custom props go here";
  "}";
  EmptyString;
  "const MyComponent = ({";
  "  className,";
  "  children,";
  "  ...props";
  "}: React.PropsWithChildren<MyComponentProps>) => {";
  "  return (";
  "    <div className={cn(" ++ dq ++ dq ++ ", className)} {...props}>";
  "      {children}";
  "    </div>";
  "  );";
  "};";
  EmptyString;
  "export { MyComponent, type MyComponentProps };";
  "```"
].

(** [unnamed/part_000] *)
Definition part_000_lines : list string := [
  "---";
  "title: A case for remote work.";
  "publish_date: 2029-01-01";
  "---";
  EmptyString;
  "If you've ever needed a job you";
  "have probably been in the";
  "cringeland of Linkedin.";
  "It's the site where you go when";
  "you want to be reminded what";
  dq ++ "resources" ++ dq ++ " mean in " ++ dq ++ "Human";
  "Resources" ++ dq ++ ".";
  EmptyString;
  "There is a misconception among many leaders about the source of high quality collaborative work.";
  "Many people in leadership positions seem to think that efficient collaboration at work is only possible when people are physically in one room, having a " ++ dq ++ "real" ++ dq ++ " conversation.";
  "Although I mildly agree with this statement, it is very similar to saying something like " ++ dq ++ "my car goes really fast, because it has a huge engine" ++ dq ++ ".";
  "Although not completely false, having a big engine in a car doesn't grant you speed, efficiency does.";
  "Every kind of efficiency contributes to faster car, whether it's efficiency of your engine or the shape of your car (aerodynamic efficiency).";
  "Same goes for conversations.";
  "Efficient conversation is the backbone of productive collaboration, and the one thing that have persisted among all efficient conversations I had in my life is the ability to listen.";
  "The company leaders who inspired me to write this blog in the first place don't seem to know anything about this.";
  "To summarise the average in-person meeting I had at that company I made a list of issues I saw, which prevented effective collaboration:";
  EmptyString;
  "- Talking over each other";
  "- Not hearing what others say while just repeating their own point over and over again.";
  "- After a period of engaging in back-and-forth conversation, one of those leaders just forgot that I am in the room, and stopped talking completely, focusing on what's happening in their computer.";
  "- Picking up the phone in a middle of talking with me, talking to someone else.";
  EmptyString;
  EmptyString
].

(** [unnamed/part_001] *)
Definition part_001_lines : list string := [
  "---";
  "title: Modern and Useful React Snippets";
  "publish_date: 2023-05-29";
  "---";
  EmptyString;
  "## TailwindCSS type-safe component";
  EmptyString;
  "```tsx";
  "import { cn } from " ++ dq ++ "@/lib/cn" ++ dq;
  EmptyString;
  "interface MyComponentProps extends ComponentProps<" ++ dq ++ "div" ++ dq ++ "> {";
  "  // Custom props go here";
  "}";
  EmptyString;
  "const MyComponent = ({ className, ...props }: React.PropsWithChildren<MyComponentProps>) => {";
  "  return <div className={cn(" ++ dq ++ dq ++ ", className)} {...props}>";
  "    {children}";
  "  </div>";
  "}";
  EmptyString;
  "export { MyComponent, type MyComponentProps }";
  "```"
].

Record file : Type := mkFile {
  path : string;
  content : string
}.

(** The markdown files of the repository. *)
Definition markdown_files : list file :=
  [ mkFile "posts/describing-url-routes-in-frontend-apps.md"
           (unlines describing_url_routes_in_frontend_apps_md_lines);
    mkFile "posts/modern-react-snippets.md"
           (unlines modern_react_snippets_md_lines);
    mkFile "unnamed/part_000" (unlines part_000_lines);
    mkFile "unnamed/part_001" (unlines part_001_lines) ].

Definition modern_react_snippets_title : string :=
  "Modern and Useful React Snippets".

End Posts.

(** ** Front matter *)

Module FrontMatter.

Record date : Type := mkDate {
  year : nat;
  month : nat;
  day : nat
}.

Record post : Type := mkPost {
  title : string;
  publish_date : date;
  body : string
}.

Definition fence : string := "---".

Fixpoint ltrim (s : string) : string :=
  match s with
  | String c r => if Ascii.eqb c " " then ltrim r else s
  | EmptyString => EmptyString
  end.

Fixpoint rtrim (s : string) : string :=
  match s with
  | EmptyString => EmptyString
  | String c r =>
      let r' := rtrim r in
      if Ascii.eqb c " " && is_empty r' then EmptyString else String c r'
  end.

Definition trim (s : string) : string := rtrim (ltrim s).

(** Modelled from the spec: a header field, [key: value], cut at the first
    colon; the reader of the header is the engine's and is not part of this
    repository. *)
Fixpoint split_colon (s : string) : option (string * string) :=
  match s with
  | EmptyString => None
  | String c rest =>
      if Ascii.eqb c ":" then Some (EmptyString, rest)
      else match split_colon rest with
           | Some (k, v) => Some (String c k, v)
           | None => None
           end
  end.

Definition parse_field (line : string) : option (string * string) :=
  match split_colon line with
  | Some (k, v) => Some (trim k, trim v)
  | None => None
  end.

Fixpoint parse_fields (ls : list string) : option (list (string * string)) :=
  match ls with
  | [] => Some []
  | l :: rest =>
      match parse_field l, parse_fields rest with
      | Some f, Some fs => Some (f :: fs)
      | _, _ => None
      end
  end.

(** Modelled from the spec: the header lines up to the closing fence, and
    the body lines after it; the reader is the engine's. *)
Fixpoint take_until_fence (ls : list string)
  : option (list string * list string) :=
  match ls with
  | [] => None
  | l :: rest =>
      if String.eqb l fence then Some ([], rest)
      else match take_until_fence rest with
           | Some (fm, after) => Some (l :: fm, after)
           | None => None
           end
  end.

(** Modelled from the spec: the front-matter reader, which belongs to the
    blog engine that [main.js] imports and is not part of this repository.
    A content file is "markdown with a front-matter block ... followed by a
    body", the block being "a small metadata header ... prefixing a
    markdown document's body": the file opens with a fence line, the header
    fields run to the next fence line, and the rest is the body. *)
Definition front_matter (text : string)
  : option (list (string * string) * string) :=
  match split_lines text with
  | first :: rest =>
      if String.eqb first fence then
        match take_until_fence rest with
        | Some (fm, after) =>
            match parse_fields fm with
            | Some fields => Some (fields, unlines after)
            | None => None
            end
        | None => None
        end
      else None
  | [] => None
  end.

Definition digit (c : ascii) : option nat :=
  let n := nat_of_ascii c in
  if ((48 <=? n) && (n <=? 57))%nat then Some (n - 48) else None.

Definition number (cs : list ascii) : option nat :=
  fold_left
    (fun acc c =>
       match acc, digit c with
       | Some a, Some d => Some (10 * a + d)
       | _, _ => None
       end)
    cs (Some 0).

Definition leap (y : nat) : bool :=
  (((y mod 4 =? 0) && negb (y mod 100 =? 0)) || (y mod 400 =? 0))%nat.

Definition days_in_month (y m : nat) : nat :=
  match m with
  | 1 | 3 | 5 | 7 | 8 | 10 | 12 => 31
  | 4 | 6 | 9 | 11 => 30
  | 2 => if leap y then 29 else 28
  | _ => 0
  end.

(** Modelled from the spec: "publish_date: ISO date", read as the calendar
    date form [YYYY-MM-DD] of ISO 8601; the date reader is the engine's and
    is not part of this repository. *)
Definition parse_iso_date (s : string) : option date :=
  match list_ascii_of_string s with
  | [y1; y2; y3; y4; dash1; m1; m2; dash2; d1; d2] =>
      if Ascii.eqb dash1 "-" && Ascii.eqb dash2 "-" then
        match number [y1; y2; y3; y4], number [m1; m2], number [d1; d2] with
        | Some y, Some m, Some d =>
            if ((1 <=? m) && (m <=? 12) && (1 <=? d) && (d <=? days_in_month y m))%nat
            then Some (mkDate y m d)
            else None
        | _, _, _ => None
        end
      else None
  | _ => None
  end.

(** Modelled from the spec: "Post: { title: string, publish_date: date,
    body: markdown text }", read from "a front-matter block of two fields
    (title: string, publish_date: ISO date) followed by a body".  The reader
    is the engine's and is not part of this repository. *)
Definition parse_post (text : string) : option post :=
  match front_matter text with
  | Some ([(k1, v1); (k2, v2)], b) =>
      if String.eqb k1 "title" && String.eqb k2 "publish_date" then
        match parse_iso_date v2 with
        | Some d => Some (mkPost v1 d b)
        | None => None
        end
      else None
  | _ => None
  end.

(** The files whose front matter carries the given title. *)
Definition titled (t : string) (fs : list Posts.file) : list Posts.file :=
  filter
    (fun f =>
       match parse_post (Posts.content f) with
       | Some p => String.eqb (title p) t
       | None => false
       end)
    fs.

End FrontMatter.

(** ** The entry file

    [main.js] is two statements.  They are kept as syntax and run by a small
    interpreter for the fragment of JavaScript they are written in, together
    with the constructs the properties below speak of: constants, field
    assignment, [throw], [try]/[catch] and the file builtins of the Deno
    runtime. *)

Module Js.

#[local] Set Warnings "-register-all".

Inductive expr : Type :=
| EStr (s : string)
| EVar (x : string)
| EObj (fields : list (string * expr))
| EArr (items : list expr)
| ECall (callee : string) (args : list expr).

Inductive stmt : Type :=
| SImport (default : string) (named : list string) (source : string)
| SExpr (e : expr)
| SConst (x : string) (e : expr)
| SSetField (target : expr) (key : string) (rhs : expr)
| SThrow (e : expr)
| STry (body handler : stmt)
| SSeq (first second : stmt).

Definition program : Type := list stmt.

(** Objects and arrays live in the heap and are handled by reference.  What
    a function of an imported module returns is opaque to this repository:
    it is kept as the call that produced it. *)
Inductive value : Type :=
| VUndef
| VStr (s : string)
| VRef (l : nat)
| VExt (callee : string) (args : list value).

Inductive cell : Type :=
| CObj (fields : list (string * value))
| CArr (items : list value).

Definition heap : Type := list cell.

(** The files next to the entry file: path and text. *)
Definition files : Type := list (string * string).

(** What the program does, in the order it does it. *)
Inductive event : Type :=
| EvAlloc (l : nat) (c : cell)
| EvSet (l : nat) (key : string) (v : value)
| EvCall (callee : string) (args : list value)
| EvRead (path : string)
| EvWrite (path : string) (text : string)
| EvThrow (v : value).

Inductive error : Type :=
| Thrown (v : value)
| ReferenceError (x : string)
| TypeError (what : string)
| EngineFailure (callee : string).

Inductive result (A : Type) : Type :=
| Ok (a : A)
| Err (e : error).

Arguments Ok {A} a.
Arguments Err {A} e.

Record state : Type := mkState {
  st_imports : list string;
  st_consts : list (string * value);
  st_heap : heap;
  st_files : files;
  st_log : list event
}.

(** The imported module is not part of the repository.  All that is known
    of a call into it is whether it returns or fails, which may depend on
    the files and on the objects it is handed. *)
Definition Engine : Type := files -> heap -> string -> list value -> bool.

Definition M (A : Type) : Type := state -> result A * state.

Definition ret {A : Type} (a : A) : M A := fun st => (Ok a, st).

Definition bind {A B : Type} (m : M A) (f : A -> M B) : M B :=
  fun st =>
    match m st with
    | (Ok a, st') => f a st'
    | (Err e, st') => (Err e, st')
    end.

Notation "x <- m ;; k" := (bind m (fun x => k))
  (at level 61, m at next level, right associativity).

Fixpoint assoc {A : Type} (k : string) (l : list (string * A)) : option A :=
  match l with
  | [] => None
  | (k', a) :: rest => if String.eqb k k' then Some a else assoc k rest
  end.

Fixpoint set_assoc {A : Type} (k : string) (a : A) (l : list (string * A))
  : list (string * A) :=
  match l with
  | [] => [(k, a)]
  | (k', a') :: rest =>
      if String.eqb k k' then (k, a) :: rest else (k', a') :: set_assoc k a rest
  end.

Fixpoint set_nth {A : Type} (n : nat) (a : A) (l : list A) : list A :=
  match l, n with
  | [], _ => []
  | _ :: rest, 0 => a :: rest
  | x :: rest, S n' => x :: set_nth n' a rest
  end.

Definition record (ev : event) (st : state) : state :=
  mkState (st_imports st) (st_consts st) (st_heap st) (st_files st)
          (st_log st ++ [ev])%list.

Definition alloc (c : cell) : M value :=
  fun st =>
    let l := length (st_heap st) in
    (Ok (VRef l),
     record (EvAlloc l c)
       (mkState (st_imports st) (st_consts st) (st_heap st ++ [c])%list
                (st_files st) (st_log st))).

Definition set_field (target : value) (key : string) (v : value) : M unit :=
  fun st =>
    match target with
    | VRef l =>
        match nth_error (st_heap st) l with
        | Some (CObj fields) =>
            (Ok tt,
             record (EvSet l key v)
               (mkState (st_imports st) (st_consts st)
                        (set_nth l (CObj (set_assoc key v fields)) (st_heap st))
                        (st_files st) (st_log st)))
        | _ => (Err (TypeError "not an object"), st)
        end
    | _ => (Err (TypeError "not an object"), st)
    end.

Definition read_file : string := "Deno.readTextFileSync".
Definition write_file : string := "Deno.writeTextFileSync".

Section Semantics.

Variable engine : Engine.

(** A call: to a function of the imported module, to a file builtin of the
    runtime, or to a name that is not bound. *)
Definition call (callee : string) (args : list value) : M value :=
  fun st =>
    if existsb (String.eqb callee) (st_imports st) then
      let st' := record (EvCall callee args) st in
      if engine (st_files st) (st_heap st) callee args
      then (Ok (VExt callee args), st')
      else (Err (EngineFailure callee), st')
    else if String.eqb callee read_file then
      match args with
      | VStr p :: _ =>
          match assoc p (st_files st) with
          | Some text => (Ok (VStr text), record (EvRead p) st)
          | None => (Err (Thrown (VStr "NotFound")), record (EvRead p) st)
          end
      | _ => (Err (TypeError "path"), st)
      end
    else if String.eqb callee write_file then
      match args with
      | VStr p :: VStr text :: _ =>
          (Ok VUndef,
           record (EvWrite p text)
             (mkState (st_imports st) (st_consts st) (st_heap st)
                      (set_assoc p text (st_files st)) (st_log st)))
      | _ => (Err (TypeError "path"), st)
      end
    else (Err (ReferenceError callee), st).

(** The callee of a call is resolved before its arguments are evaluated:
    an unbound name is a [ReferenceError] there and then. *)
Definition resolve (callee : string) : M unit :=
  fun st =>
    if existsb (String.eqb callee) (st_imports st)
       || String.eqb callee read_file || String.eqb callee write_file
    then (Ok tt, st)
    else (Err (ReferenceError callee), st).

Fixpoint eval (e : expr) : M value :=
  match e with
  | EStr s => ret (VStr s)
  | EVar x =>
      fun st =>
        match assoc x (st_consts st) with
        | Some v => (Ok v, st)
        | None => (Err (ReferenceError x), st)
        end
  | EObj fields =>
      vs <- (fix props (fs : list (string * expr))
               : M (list (string * value)) :=
               match fs with
               | [] => ret []
               | (k, e') :: rest =>
                   v <- eval e' ;; vs <- props rest ;; ret ((k, v) :: vs)
               end) fields ;;
      alloc (CObj vs)
  | EArr items =>
      vs <- (fix elems (es : list expr) : M (list value) :=
               match es with
               | [] => ret []
               | e' :: rest =>
                   v <- eval e' ;; vs <- elems rest ;; ret (v :: vs)
               end) items ;;
      alloc (CArr vs)
  | ECall callee args =>
      _ <- resolve callee ;;
      vs <- (fix elems (es : list expr) : M (list value) :=
               match es with
               | [] => ret []
               | e' :: rest =>
                   v <- eval e' ;; vs <- elems rest ;; ret (v :: vs)
               end) args ;;
      call callee vs
  end.

(** The element and field loops of [eval], by name. *)
Fixpoint eval_list (es : list expr) : M (list value) :=
  match es with
  | [] => ret []
  | e' :: rest => v <- eval e' ;; vs <- eval_list rest ;; ret (v :: vs)
  end.

Fixpoint eval_fields (fs : list (string * expr)) : M (list (string * value)) :=
  match fs with
  | [] => ret []
  | (k, e') :: rest =>
      v <- eval e' ;; vs <- eval_fields rest ;; ret ((k, v) :: vs)
  end.

Fixpoint exec (s : stmt) : M unit :=
  match s with
  | SImport default named _ =>
      fun st =>
        (Ok tt,
         mkState (st_imports st ++ default :: named)%list (st_consts st)
                 (st_heap st) (st_files st) (st_log st))
  | SExpr e => _ <- eval e ;; ret tt
  | SConst x e =>
      v <- eval e ;;
      fun st =>
        (Ok tt,
         mkState (st_imports st) ((x, v) :: st_consts st) (st_heap st)
                 (st_files st) (st_log st))
  | SSetField target key rhs =>
      t <- eval target ;; v <- eval rhs ;; set_field t key v
  | SThrow e =>
      v <- eval e ;; fun st => (Err (Thrown v), record (EvThrow v) st)
  | STry body handler =>
      fun st =>
        match exec body st with
        | (Ok tt, st') => (Ok tt, st')
        | (Err _, st') => exec handler st'
        end
  | SSeq first second => _ <- exec first ;; exec second
  end.

Fixpoint run (p : program) : M unit :=
  match p with
  | [] => ret tt
  | s :: rest => _ <- exec s ;; run rest
  end.

End Semantics.

(** The process starts with nothing imported and an empty heap, next to the
    files of the repository. *)
Definition boot (fs : files) : state := mkState [] [] [] fs [].

Definition outcome (engine : Engine) (fs : files) (p : program) : result unit :=
  fst (run engine p (boot fs)).

Definition final (engine : Engine) (fs : files) (p : program) : state :=
  snd (run engine p (boot fs)).

Definition trace (engine : Engine) (fs : files) (p : program) : list event :=
  st_log (final engine fs p).

(** The heap that a sequence of events builds. *)
Definition apply_event (h : heap) (ev : event) : heap :=
  match ev with
  | EvAlloc _ c => (h ++ [c])%list
  | EvSet l key v =>
      match nth_error h l with
      | Some (CObj fields) => set_nth l (CObj (set_assoc key v fields)) h
      | _ => h
      end
  | _ => h
  end.

Definition replay (evs : list event) : heap := fold_left apply_event evs [].

(** The contents of a value, followed through the heap. *)
Inductive tree : Type :=
| TUndef
| TStr (s : string)
| TObj (fields : list (string * tree))
| TArr (items : list tree)
| TExt (callee : string) (args : list tree).

Fixpoint sequence {A : Type} (l : list (option A)) : option (list A) :=
  match l with
  | [] => Some []
  | Some a :: rest => option_map (cons a) (sequence rest)
  | None :: _ => None
  end.

Fixpoint readback (fuel : nat) (h : heap) (v : value) : option tree :=
  match fuel with
  | 0 => None
  | S n =>
      match v with
      | VUndef => Some TUndef
      | VStr s => Some (TStr s)
      | VExt callee args =>
          option_map (TExt callee) (sequence (map (readback n h) args))
      | VRef l =>
          match nth_error h l with
          | Some (CObj fields) =>
              option_map TObj
                (sequence
                   (map (fun kv =>
                           option_map (pair (fst kv)) (readback n h (snd kv)))
                        fields))
          | Some (CArr items) =>
              option_map TArr (sequence (map (readback n h) items))
          | None => None
          end
      end
  end.

Definition reads_as (h : heap) (v : value) (t : tree) : Prop :=
  exists fuel, readback fuel h v = Some t.

(** *** Syntactic views *)

(** The argument lists of the calls to [f], in source order. *)
Fixpoint calls_in (f : string) (e : expr) : list (list expr) :=
  match e with
  | EStr _ | EVar _ => []
  | EObj fields =>
      flat_map (fun kv => calls_in f (snd kv)) fields
  | EArr items => flat_map (calls_in f) items
  | ECall callee args =>
      ((if String.eqb callee f then [args] else []) ++
       flat_map (calls_in f) args)%list
  end.

Fixpoint calls_in_stmt (f : string) (s : stmt) : list (list expr) :=
  match s with
  | SImport _ _ _ => []
  | SExpr e | SConst _ e | SThrow e => calls_in f e
  | SSetField target _ rhs => (calls_in f target ++ calls_in f rhs)%list
  | STry a b | SSeq a b => (calls_in_stmt f a ++ calls_in_stmt f b)%list
  end.

Definition call_sites (f : string) (p : program) : list (list expr) :=
  flat_map (calls_in_stmt f) p.

(** Do all the calls go to names that [ok] accepts? *)
Fixpoint callees_ok (ok : string -> bool) (e : expr) : bool :=
  match e with
  | EStr _ | EVar _ => true
  | EObj fields => forallb (fun kv => callees_ok ok (snd kv)) fields
  | EArr items => forallb (callees_ok ok) items
  | ECall callee args => ok callee && forallb (callees_ok ok) args
  end.

Fixpoint stmt_callees_ok (ok : string -> bool) (s : stmt) : bool :=
  match s with
  | SImport _ _ _ => true
  | SExpr e | SConst _ e | SThrow e => callees_ok ok e
  | SSetField target _ rhs => callees_ok ok target && callees_ok ok rhs
  | STry a b | SSeq a b => stmt_callees_ok ok a && stmt_callees_ok ok b
  end.

(** Does the statement raise or catch an error? *)
Fixpoint handles_errors (s : stmt) : bool :=
  match s with
  | SThrow _ | STry _ _ => true
  | SSeq a b => handles_errors a || handles_errors b
  | _ => false
  end.

(** Does the statement assign to a field? *)
Fixpoint assigns (s : stmt) : bool :=
  match s with
  | SSetField _ _ _ => true
  | STry a b | SSeq a b => assigns a || assigns b
  | _ => false
  end.

(** *** Views of a trace *)

Fixpoint list_eqb (a b : list string) : bool :=
  match a, b with
  | [], [] => true
  | x :: a', y :: b' => String.eqb x y && list_eqb a' b'
  | _, _ => false
  end.

Definition keys {A : Type} (l : list (string * A)) : list string := map fst l.

(** Where objects with the given field names were built. *)
Definition constructions (ks : list string) (evs : list event) : list nat :=
  flat_map
    (fun ev =>
       match ev with
       | EvAlloc l (CObj fields) => if list_eqb (keys fields) ks then [l] else []
       | _ => []
       end)
    evs.

Definition mutations (evs : list event) : list (nat * string) :=
  flat_map (fun ev => match ev with EvSet l k _ => [(l, k)] | _ => [] end) evs.

Definition calls_to (f : string) (evs : list event) : list (list value) :=
  flat_map
    (fun ev =>
       match ev with
       | EvCall callee args => if String.eqb callee f then [args] else []
       | _ => []
       end)
    evs.

Definition reads (evs : list event) : list string :=
  flat_map (fun ev => match ev with EvRead p => [p] | _ => [] end) evs.

Definition writes (evs : list event) : list string :=
  flat_map (fun ev => match ev with EvWrite p _ => [p] | _ => [] end) evs.

Definition throws (evs : list event) : list value :=
  flat_map (fun ev => match ev with EvThrow v => [v] | _ => [] end) evs.

(** The files that a sequence of events leaves. *)
Definition apply_write (fs : files) (ev : event) : files :=
  match ev with
  | EvWrite p text => set_assoc p text fs
  | _ => fs
  end.

Definition replay_files (fs : files) (evs : list event) : files :=
  fold_left apply_write evs fs.

(** A statement that calls only what [ok] accepts and assigns to a field
    only if [may_assign]. *)
Definition stmt_ok (ok : string -> bool) (may_assign : bool) (s : stmt) : bool :=
  stmt_callees_ok ok s && (may_assign || negb (assigns s)).

(** The log of a state accounts for its heap and its files. *)
Definition coherent (fs0 : files) (st : state) : Prop :=
  replay (st_log st) = st_heap st /\ replay_files fs0 (st_log st) = st_files st.

(** An action keeps a relation between the state before and after it. *)
Definition preserves {A : Type} (R : state -> state -> Prop) (m : M A) : Prop :=
  forall st, R st (snd (m st)).

Definition object_keys (e : expr) : option (list string) :=
  match e with
  | EObj fields => Some (keys fields)
  | _ => None
  end.

Definition field (k : string) (e : expr) : option expr :=
  match e with
  | EObj fields => assoc k fields
  | _ => None
  end.

(** What a literal denotes: strings, objects, arrays and calls into the
    imported module, with no variable. *)
Fixpoint literal_value (e : expr) : option tree :=
  match e with
  | EStr s => Some (TStr s)
  | EVar _ => None
  | EObj fields =>
      option_map TObj
        (sequence
           (map (fun kv => option_map (pair (fst kv)) (literal_value (snd kv)))
                fields))
  | EArr items => option_map TArr (sequence (map literal_value items))
  | ECall callee args =>
      option_map (TExt callee) (sequence (map literal_value args))
  end.

Definition tfield (k : string) (t : tree) : option tree :=
  match t with
  | TObj fields => assoc k fields
  | _ => None
  end.

End Js.

(** ** [main.js] *)

Module Main.

Import Js.

(** The object literal handed to [blog]. *)
Definition config : expr :=
  EObj
    [ ("title", EStr "Antoni");
      ("author", EStr "Antoni");
      ("avatar", EStr "./snoop.jpg");
      ("avatarClass", EStr "full");
      ("links",
       EArr
         [ EObj [ ("title", EStr "Email");
                  ("url", EStr "mailto:antoni@quassum.com") ];
           EObj [ ("title", EStr "GitHub");
                  ("url", EStr "https://github.com/bring-shrubbery") ] ]);
      ("lang", EStr "en");
      ("middlewares", EArr [ ECall "ga" [ EStr "G-C0SCBZQ6ME" ] ]) ].

(** [import blog, { ga } from "https://deno.land/x/blog@0.6.1/blog.tsx";
     blog({ ... });] *)
Definition main_js : program :=
  [ SImport "blog" ["ga"] "https://deno.land/x/blog@0.6.1/blog.tsx";
    SExpr (ECall "blog" [config]) ].

(** The configuration as a value: what the literal denotes. *)
Definition config_value : tree :=
  TObj
    [ ("title", TStr "Antoni");
      ("author", TStr "Antoni");
      ("avatar", TStr "./snoop.jpg");
      ("avatarClass", TStr "full");
      ("links",
       TArr
         [ TObj [ ("title", TStr "Email");
                  ("url", TStr "mailto:antoni@quassum.com") ];
           TObj [ ("title", TStr "GitHub");
                  ("url", TStr "https://github.com/bring-shrubbery") ] ]);
      ("lang", TStr "en");
      ("middlewares", TArr [ TExt "ga" [ TStr "G-C0SCBZQ6ME" ] ]) ].

(** The files of the repository as the running process finds them. *)
Definition repository_files : files :=
  map (fun f => (Posts.path f, Posts.content f)) Posts.markdown_files.

(** An engine whose calls all return. *)
Definition well_behaved : Engine := fun _ _ _ _ => true.

(** What running [main.js] builds when [ga] returns: five heap cells, the
    last of them the configuration, and seven events. *)
Definition main_heap : heap :=
  [ CObj [ ("title", VStr "Email"); ("url", VStr "mailto:antoni@quassum.com") ];
    CObj [ ("title", VStr "GitHub");
           ("url", VStr "https://github.com/bring-shrubbery") ];
    CArr [ VRef 0; VRef 1 ];
    CArr [ VExt "ga" [ VStr "G-C0SCBZQ6ME" ] ];
    CObj [ ("title", VStr "Antoni");
           ("author", VStr "Antoni");
           ("avatar", VStr "./snoop.jpg");
           ("avatarClass", VStr "full");
           ("links", VRef 2);
           ("lang", VStr "en");
           ("middlewares", VRef 3) ] ].

Definition main_trace : list event :=
  [ EvAlloc 0 (nth 0 main_heap (CArr []));
    EvAlloc 1 (nth 1 main_heap (CArr []));
    EvAlloc 2 (nth 2 main_heap (CArr []));
    EvCall "ga" [ VStr "G-C0SCBZQ6ME" ];
    EvAlloc 3 (nth 3 main_heap (CArr []));
    EvAlloc 4 (nth 4 main_heap (CArr []));
    EvCall "blog" [ VRef 4 ] ].

Definition config_keys : list string :=
  [ "title"; "author"; "avatar"; "avatarClass"; "links"; "lang"; "middlewares" ].

(** What the engine answers to the one call of [ga] that [main.js] makes,
    with the two link objects and the array of links on the heap, and to
    its one call of [blog], with the whole configuration there. *)
Definition ga_returns (engine : Engine) (fs : files) : bool :=
  engine fs (firstn 3 main_heap) "ga" [ VStr "G-C0SCBZQ6ME" ].

Definition blog_returns (engine : Engine) (fs : files) : bool :=
  engine fs main_heap "blog" [ VRef 4 ].

(** An engine whose [ga] fails. *)
Definition ga_fails : Engine := fun _ _ callee _ => negb (String.eqb callee "ga").

End Main.

(** * Properties *)

(** ** The route samples *)

Lemma truthy_some (s : string) : s <> EmptyString -> truthy (Some s) = true.
Proof. destruct s; [congruence | reflexivity]. Qed.

Lemma str_eq_false (a b : string) : a <> b -> str_eq a b = false.
Proof. intros H. unfold str_eq. apply String.eqb_neq. exact H. Qed.

Lemma string_app_assoc (a b c : string) : (a ++ b) ++ c = a ++ b ++ c.
Proof. induction a as [| x a IH]; cbn [append]; [| rewrite IH]; reflexivity. Qed.

(** [joinIfPresent] joins exactly when its second argument is a non-empty
    string; otherwise it gives the base back. *)
Lemma joinIfPresent_present (base s : string) :
  s <> EmptyString -> OptionalParams.joinIfPresent base (Some s) = base ++ s.
Proof.
  intros H. unfold OptionalParams.joinIfPresent.
  rewrite truthy_some by exact H. reflexivity.
Qed.

Lemma joinIfPresent_absent (base : string) (str : optional string) :
  truthy str = false -> OptionalParams.joinIfPresent base str = base.
Proof. intros H. unfold OptionalParams.joinIfPresent. rewrite H. reflexivity. Qed.

(** C5, as stated, at [id = "1234"] without a slug: the route is
    ["/users/1234/"], not ["/users/" + id]. *)
Lemma byId_without_slug_keeps_slash :
  OptionalParams.byId (OptionalParams.users OptionalParams.ROUTES)
    (OptionalParams.mkArgs "1234" None) = "/users/1234/"
  /\ OptionalParams.byId (OptionalParams.users OptionalParams.ROUTES)
       (OptionalParams.mkArgs "1234" None) <> "/users/" ++ "1234".
Proof. split; [reflexivity | discriminate]. Qed.

(** C5, amended: for every string [id], [ROUTES.users.byId] gives
    ["/users/" + id + "/"] when the slug is [undefined] and when it is the
    empty string, and ["/users/" + id + "/" + slug] for every non-empty
    slug. *)
Theorem byId_optional_slug (id : string) :
  OptionalParams.byId (OptionalParams.users OptionalParams.ROUTES)
    (OptionalParams.mkArgs id None) = "/users/" ++ id ++ "/"
  /\ OptionalParams.byId (OptionalParams.users OptionalParams.ROUTES)
       (OptionalParams.mkArgs id (Some EmptyString)) = "/users/" ++ id ++ "/"
  /\ forall slug : string,
       slug <> EmptyString ->
       OptionalParams.byId (OptionalParams.users OptionalParams.ROUTES)
         (OptionalParams.mkArgs id (Some slug))
       = "/users/" ++ id ++ "/" ++ slug.
Proof.
  repeat split.
  intros slug Hslug. cbn [OptionalParams.byId OptionalParams.users
    OptionalParams.ROUTES OptionalParams.id OptionalParams.slug].
  rewrite joinIfPresent_present by exact Hslug. reflexivity.
Qed.

Lemma byId_optional_slug_witness :
  OptionalParams.byId (OptionalParams.users OptionalParams.ROUTES)
    (OptionalParams.mkArgs "1234" (Some "posts")) = "/users/1234/posts".
Proof.
  refine (proj2 (proj2 (byId_optional_slug "1234")) "posts" _).
  discriminate.
Defined.

(** C4: [getRoutes()] is [getRoutes("en")]; for ["en"] the routes carry no
    prefix; for every other locale each route is ["/" + locale] followed by
    the ["en"] route. *)
Theorem getRoutes_locale_prefix :
  GlobalParams.getRoutes None = GlobalParams.getRoutes (Some "en")
  /\ (index (users (GlobalParams.getRoutes (Some "en"))) = "/users"
      /\ forall id : string,
           byId (users (GlobalParams.getRoutes (Some "en"))) id = "/users/" ++ id)
  /\ forall locale : string,
       locale <> "en" ->
       index (users (GlobalParams.getRoutes (Some locale)))
       = "/" ++ locale ++ index (users (GlobalParams.getRoutes (Some "en")))
       /\ forall id : string,
            byId (users (GlobalParams.getRoutes (Some locale))) id
            = "/" ++ locale ++ byId (users (GlobalParams.getRoutes (Some "en"))) id.
Proof.
  split; [reflexivity |]. split; [split; [reflexivity | intros id; reflexivity] |].
  intros locale Hne. unfold GlobalParams.getRoutes.
  cbn [with_default index byId users].
  rewrite (str_eq_false locale "en" Hne).
  change (str_eq "en" "en") with true. cbn iota.
  split; [| intros id]; cbn [append]; rewrite ?string_app_assoc;
    reflexivity.
Qed.

Lemma getRoutes_locale_prefix_witness :
  index (users (GlobalParams.getRoutes (Some "de"))) = "/de/users"
  /\ byId (users (GlobalParams.getRoutes (Some "de"))) "1234" = "/de/users/1234".
Proof.
  assert (Hde : "de" <> "en") by discriminate.
  destruct (proj2 (proj2 getRoutes_locale_prefix) "de" Hde) as [Hi Hb].
  split; [exact Hi | exact (Hb "1234")].
Defined.

(** [useRoutes] puts the slash in front of the locale and [getRoutes] puts
    one more: every link starts with two slashes. *)
Lemma useRoutes_href (useLocale : unit -> string) :
  HooksInside.YourComponent_href useLocale tt
  = if str_eq (useLocale tt) "en" then "//users/1234"
    else "//" ++ useLocale tt ++ "/users/1234".
Proof.
  unfold HooksInside.YourComponent_href, HooksInside.useRoutes,
    HooksInside.getRoutes.
  cbn [with_default byId users].
  destruct (str_eq (useLocale tt) "en"); [reflexivity |].
  assert (Hne : "/" ++ useLocale tt <> "en") by (cbn [append]; discriminate).
  rewrite (str_eq_false _ _ Hne). cbn [append].
  rewrite ?string_app_assoc. reflexivity.
Qed.

(** C3: with [useLocale() = "de"] the sample computes ["//de/users/1234"],
    which is not the ["/de/users/1234"] of its comment. *)
Theorem useRoutes_de_href :
  HooksInside.YourComponent_href (fun _ => "de") tt = "//de/users/1234"
  /\ HooksInside.YourComponent_href (fun _ => "de") tt <> "/de/users/1234".
Proof. split; [reflexivity | discriminate]. Qed.

(** ** The posts *)

Lemma split_lines_line (l rest : string) :
  has_lf l = false ->
  split_lines (l ++ String LF rest) = l :: split_lines rest.
Proof.
  induction l as [| c l IH]; intros Hl.
  - reflexivity.
  - cbn [has_lf] in Hl. apply Bool.orb_false_iff in Hl as [Hc Hl].
    cbn [append split_lines]. rewrite Hc, (IH Hl). reflexivity.
Qed.

(** Cutting a text into lines undoes [unlines]. *)
Lemma split_lines_unlines (ls : list string) :
  Forall (fun l => has_lf l = false) ls -> split_lines (unlines ls) = ls.
Proof.
  induction 1 as [| l ls Hl _ IH]; [reflexivity |].
  cbn [unlines fold_right]. rewrite (split_lines_line _ _ Hl).
  fold (unlines ls). rewrite IH. reflexivity.
Qed.

Import Posts FrontMatter.

Lemma take_until_fence_app (header body : list string) :
  Forall (fun l => String.eqb l fence = false) header ->
  take_until_fence (header ++ fence :: body) = Some (header, body).
Proof.
  induction 1 as [| l header Hl _ IH]; cbn [app take_until_fence].
  - reflexivity.
  - rewrite Hl, IH. reflexivity.
Qed.

(** The reader on a well-formed file: a fence, header lines, a fence and
    body lines give the fields of the header and the body. *)
Lemma front_matter_unlines (header body : list string) :
  Forall (fun l => has_lf l = false) (header ++ body) ->
  Forall (fun l => String.eqb l fence = false) header ->
  front_matter (unlines (fence :: header ++ fence :: body))
  = match parse_fields header with
    | Some fields => Some (fields, unlines body)
    | None => None
    end.
Proof.
  intros Hlf Hfence. unfold front_matter.
  rewrite split_lines_unlines.
  - rewrite String.eqb_refl.
    rewrite (take_until_fence_app _ _ Hfence). reflexivity.
  - apply Forall_app in Hlf as [Hh Hb].
    constructor; [reflexivity |]. apply Forall_app. split; [exact Hh |].
    constructor; [reflexivity | exact Hb].
Qed.

(** C2: every markdown file of the repository opens with a front-matter
    block of exactly the two fields [title] and [publish_date], the latter
    an ISO date, and the rest is the body: the file parses into a post. *)
Theorem posts_have_front_matter (f : file) :
  In f markdown_files ->
  exists (t v b : string) (d : date),
    front_matter (content f) = Some ([("title", t); ("publish_date", v)], b)
    /\ parse_iso_date v = Some d
    /\ parse_post (content f) = Some (mkPost t d b).
Proof.
  intros Hin. cbn [markdown_files In] in Hin.
  destruct Hin as [<- | [<- | [<- | [<- | []]]]]; cbn [content].
  - exists "Describing URL Routes in Frontend Apps", "2023-06-25",
      (unlines (skipn 4 describing_url_routes_in_frontend_apps_md_lines)),
      (mkDate 2023 6 25).
    vm_compute. repeat split; reflexivity.
  - exists "Modern and Useful React Snippets", "2023-05-29",
      (unlines (skipn 4 modern_react_snippets_md_lines)), (mkDate 2023 5 29).
    vm_compute. repeat split; reflexivity.
  - exists "A case for remote work.", "2029-01-01",
      (unlines (skipn 4 part_000_lines)), (mkDate 2029 1 1).
    vm_compute. repeat split; reflexivity.
  - exists "Modern and Useful React Snippets", "2023-05-29",
      (unlines (skipn 4 part_001_lines)), (mkDate 2023 5 29).
    vm_compute. repeat split; reflexivity.
Qed.

Lemma posts_have_front_matter_witness :
  exists (t v b : string) (d : date),
    front_matter (unlines part_000_lines)
    = Some ([("title", t); ("publish_date", v)], b)
    /\ parse_iso_date v = Some d
    /\ parse_post (unlines part_000_lines) = Some (mkPost t d b).
Proof.
  apply (posts_have_front_matter (mkFile "unnamed/part_000" (unlines part_000_lines))).
  cbn [markdown_files In]. right. right. left. reflexivity.
Defined.

(** C6: exactly two files carry the title of the "Modern React Snippets"
    post; their front matter is the same, their bodies are not, and so the
    two files differ. *)
Theorem modern_react_snippets_two_drafts :
  exists a b : file,
    titled modern_react_snippets_title markdown_files = [a; b]
    /\ path a = "posts/modern-react-snippets.md"
    /\ path b = "unnamed/part_001"
    /\ (exists (fm : list (string * string)) (body_a body_b : string),
          front_matter (content a) = Some (fm, body_a)
          /\ front_matter (content b) = Some (fm, body_b)
          /\ fm = [("title", "Modern and Useful React Snippets");
                   ("publish_date", "2023-05-29")]
          /\ parse_iso_date "2023-05-29" = Some (mkDate 2023 5 29)
          /\ body_a <> body_b)
    /\ content a <> content b.
Proof.
  exists (mkFile "posts/modern-react-snippets.md"
            (unlines modern_react_snippets_md_lines)),
    (mkFile "unnamed/part_001" (unlines part_001_lines)).
  split; [vm_compute; reflexivity |].
  split; [reflexivity |]. split; [reflexivity |]. split.
  - exists [("title", "Modern and Useful React Snippets");
            ("publish_date", "2023-05-29")],
      (unlines (skipn 4 modern_react_snippets_md_lines)),
      (unlines (skipn 4 part_001_lines)).
    split; [vm_compute; reflexivity |]. split; [vm_compute; reflexivity |].
    split; [reflexivity |]. split; [reflexivity |].
    apply String.eqb_neq. vm_compute. reflexivity.
  - cbn [content]. apply String.eqb_neq. vm_compute. reflexivity.
Qed.

(** ** The entry file *)

Import Js Main.

Lemma sequence_map_mono {A B : Type} (f g : A -> option B) (l : list A)
  (r : list B) :
  (forall a b, f a = Some b -> g a = Some b) ->
  sequence (map f l) = Some r -> sequence (map g l) = Some r.
Proof.
  intros Hfg. revert r.
  induction l as [| a l IH]; intros r H; [exact H |].
  cbn [map sequence] in *.
  destruct (f a) as [b |] eqn:Hfa; [| discriminate].
  rewrite (Hfg _ _ Hfa).
  destruct (sequence (map f l)) as [r' |]; [| discriminate].
  rewrite (IH r' eq_refl). exact H.
Qed.

(** More fuel never changes what is read back. *)
Lemma readback_mono (h : heap) (n : nat) :
  forall (v : value) (t : tree),
    readback n h v = Some t -> forall m, n <= m -> readback m h v = Some t.
Proof.
  induction n as [| n IH]; intros v t H m Hle; [discriminate |].
  destruct m as [| m]; [lia |].
  assert (Hstep : forall v' t', readback n h v' = Some t' ->
                                readback m h v' = Some t')
    by (intros v' t' H'; apply (IH v' t' H'); lia).
  cbn [readback] in *. destruct v as [| s | l | callee args]; try exact H.
  - destruct (nth_error h l) as [[fields | items] |]; [| | discriminate].
    + destruct (sequence (map _ fields)) as [r |] eqn:Hr; [| discriminate].
      erewrite sequence_map_mono; [exact H | | exact Hr].
      intros [k v'] b Hb. cbn [fst snd] in *.
      destruct (readback n h v') as [t' |] eqn:Ht'; [| discriminate].
      rewrite (Hstep _ _ Ht'). exact Hb.
    + destruct (sequence (map _ items)) as [r |] eqn:Hr; [| discriminate].
      erewrite sequence_map_mono; [exact H | exact Hstep | exact Hr].
  - destruct (sequence (map _ args)) as [r |] eqn:Hr; [| discriminate].
    erewrite sequence_map_mono; [exact H | exact Hstep | exact Hr].
Qed.

(** A value reads as one tree at most. *)
Lemma reads_as_functional (h : heap) (v : value) (t1 t2 : tree) :
  reads_as h v t1 -> reads_as h v t2 -> t1 = t2.
Proof.
  intros [n1 H1] [n2 H2].
  pose proof (readback_mono h n1 v t1 H1 (n1 + n2) ltac:(lia)) as E1.
  pose proof (readback_mono h n2 v t2 H2 (n1 + n2) ltac:(lia)) as E2.
  congruence.
Qed.

Lemma replay_app (evs1 evs2 : list event) :
  replay (evs1 ++ evs2) = fold_left apply_event evs2 (replay evs1).
Proof. unfold replay. apply fold_left_app. Qed.

(** *** What every program keeps *)

Lemma expr_nested_ind (P : expr -> Prop) :
  (forall s, P (EStr s)) ->
  (forall x, P (EVar x)) ->
  (forall fields, Forall (fun kv => P (snd kv)) fields -> P (EObj fields)) ->
  (forall items, Forall P items -> P (EArr items)) ->
  (forall callee args, Forall P args -> P (ECall callee args)) ->
  forall e, P e.
Proof.
  intros Hs Hx Ho Ha Hc. fix IH 1.
  intros [s | x | fields | items | callee args].
  - apply Hs.
  - apply Hx.
  - apply Ho. induction fields as [| [k e] rest IHf]; constructor;
      [apply IH | exact IHf].
  - apply Ha. induction items as [| e rest IHi]; constructor;
      [apply IH | exact IHi].
  - apply Hc. induction args as [| e rest IHa]; constructor;
      [apply IH | exact IHa].
Qed.

Lemma Forall_forallb {A : Type} (f : A -> bool) (P : A -> Prop) (l : list A) :
  Forall (fun a => f a = true -> P a) l -> forallb f l = true -> Forall P l.
Proof.
  induction 1 as [| a l Ha _ IH]; intros Hall; constructor;
    cbn [forallb] in Hall; apply Bool.andb_true_iff in Hall as [Hfa Hl];
    [exact (Ha Hfa) | exact (IH Hl)].
Qed.

Section Preservation.

Variable engine : Engine.
Variable R : state -> state -> Prop.
Hypothesis R_refl : forall st, R st st.
Hypothesis R_trans : forall a b c, R a b -> R b c -> R a c.

Lemma preserves_ret {A : Type} (a : A) : preserves R (ret a).
Proof. intros st. apply R_refl. Qed.

Lemma preserves_bind {A B : Type} (m : M A) (f : A -> M B) :
  preserves R m -> (forall a, preserves R (f a)) -> preserves R (bind m f).
Proof.
  intros Hm Hf st. unfold bind. specialize (Hm st).
  destruct (m st) as [[a | e] st']; cbn [snd] in *.
  - eapply R_trans; [exact Hm | apply Hf].
  - exact Hm.
Qed.

(** The callees that the relation tolerates. *)
Variable ok : string -> bool.
Hypothesis R_alloc : forall c, preserves R (alloc c).
Hypothesis R_call :
  forall callee args, ok callee = true -> preserves R (call engine callee args).

Lemma preserves_eval_list (es : list expr) :
  Forall (fun e => preserves R (eval engine e)) es ->
  preserves R (eval_list engine es).
Proof.
  induction 1 as [| e es He _ IH]; cbn [eval_list].
  - apply preserves_ret.
  - apply preserves_bind; [exact He | intros v].
    apply preserves_bind; [exact IH | intros vs]. apply preserves_ret.
Qed.

Lemma preserves_eval_fields (fs : list (string * expr)) :
  Forall (fun kv => preserves R (eval engine (snd kv))) fs ->
  preserves R (eval_fields engine fs).
Proof.
  induction 1 as [| [k e] fs He _ IH]; cbn [eval_fields].
  - apply preserves_ret.
  - apply preserves_bind; [exact He | intros v].
    apply preserves_bind; [exact IH | intros vs]. apply preserves_ret.
Qed.

Lemma preserves_eval (e : expr) :
  callees_ok ok e = true -> preserves R (eval engine e).
Proof.
  induction e as [s | x | fields IH | items IH | callee args IH]
    using expr_nested_ind; intros Hok.
  - apply preserves_ret.
  - intros st. cbn [eval]. destruct (assoc x (st_consts st)); apply R_refl.
  - change (eval engine (EObj fields))
      with (bind (eval_fields engine fields) (fun vs => alloc (CObj vs))).
    apply preserves_bind; [| intros vs; apply R_alloc].
    apply preserves_eval_fields.
    exact (Forall_forallb (fun kv => callees_ok ok (snd kv)) _ _ IH Hok).
  - change (eval engine (EArr items))
      with (bind (eval_list engine items) (fun vs => alloc (CArr vs))).
    apply preserves_bind; [| intros vs; apply R_alloc].
    apply preserves_eval_list. exact (Forall_forallb _ _ _ IH Hok).
  - change (eval engine (ECall callee args))
      with (bind (resolve callee)
              (fun _ => bind (eval_list engine args)
                          (fun vs => call engine callee vs))).
    cbn [callees_ok] in Hok. apply Bool.andb_true_iff in Hok as [Hcallee Hargs].
    apply preserves_bind; [| intros _].
    { intros st. unfold resolve.
      destruct (existsb (String.eqb callee) (st_imports st)
                || String.eqb callee read_file || String.eqb callee write_file);
        apply R_refl. }
    apply preserves_bind; [| intros vs; apply R_call; exact Hcallee].
    apply preserves_eval_list. exact (Forall_forallb _ _ _ IH Hargs).
Qed.

(** Whether the relation tolerates field assignment. *)
Variable may_assign : bool.
Hypothesis R_set :
  may_assign = true -> forall t k v, preserves R (set_field t k v).
Hypothesis R_env :
  forall st imports consts,
    R st (mkState imports consts (st_heap st) (st_files st) (st_log st)).
Hypothesis R_throw : forall v st, R st (record (EvThrow v) st).

Lemma preserves_exec (s : stmt) :
  stmt_callees_ok ok s = true ->
  may_assign || negb (assigns s) = true ->
  preserves R (exec engine s).
Proof.
  induction s as [d named src | e | x e | target key rhs | e
                 | body IHb handler IHh | first IH1 second IH2];
    intros Hok Hassign; cbn [exec stmt_callees_ok assigns] in *.
  - intros st. apply R_env.
  - apply preserves_bind; [apply preserves_eval; exact Hok | intros v].
    apply preserves_ret.
  - apply preserves_bind; [apply preserves_eval; exact Hok | intros v st].
    apply R_env.
  - apply Bool.andb_true_iff in Hok as [Ht Hr].
    rewrite Bool.orb_false_r in Hassign.
    apply preserves_bind; [apply preserves_eval; exact Ht | intros t].
    apply preserves_bind; [apply preserves_eval; exact Hr | intros v].
    apply R_set. exact Hassign.
  - apply preserves_bind; [apply preserves_eval; exact Hok | intros v st].
    apply R_throw.
  - apply Bool.andb_true_iff in Hok as [Ha Hb].
    assert (Hassign' : (may_assign || negb (assigns body) = true)
                       /\ (may_assign || negb (assigns handler) = true)).
    { destruct may_assign; [split; reflexivity |]. cbn [orb] in *.
      rewrite Bool.negb_orb in Hassign.
      apply Bool.andb_true_iff in Hassign. exact Hassign. }
    destruct Hassign' as [Hab Hah].
    intros st. specialize (IHb Ha Hab st).
    destruct (exec engine body st) as [[[] | err] st']; cbn [snd] in *;
      [exact IHb |].
    eapply R_trans; [exact IHb | apply (IHh Hb Hah)].
  - apply Bool.andb_true_iff in Hok as [Ha Hb].
    assert (Hassign' : (may_assign || negb (assigns first) = true)
                       /\ (may_assign || negb (assigns second) = true)).
    { destruct may_assign; [split; reflexivity |]. cbn [orb] in *.
      rewrite Bool.negb_orb in Hassign.
      apply Bool.andb_true_iff in Hassign. exact Hassign. }
    destruct Hassign' as [Hab Hah].
    apply preserves_bind; [exact (IH1 Ha Hab) | intros _; exact (IH2 Hb Hah)].
Qed.

Lemma preserves_run (p : program) :
  forallb (stmt_ok ok may_assign) p = true -> preserves R (run engine p).
Proof.
  induction p as [| s p IH]; intros Hok; cbn [run].
  - apply preserves_ret.
  - cbn [forallb] in Hok. apply Bool.andb_true_iff in Hok as [Hs Hp].
    unfold stmt_ok in Hs. apply Bool.andb_true_iff in Hs as [Hc Ha].
    apply preserves_bind; [exact (preserves_exec s Hc Ha) | intros _].
    exact (IH Hp).
Qed.

End Preservation.

Lemma replay_files_app (fs : files) (evs1 evs2 : list event) :
  replay_files fs (evs1 ++ evs2)
  = fold_left apply_write evs2 (replay_files fs evs1).
Proof. unfold replay_files. apply fold_left_app. Qed.

Lemma coherent_record (fs0 : files) (st : state) (ev : event) :
  coherent fs0 st ->
  apply_event (st_heap st) ev = st_heap st ->
  apply_write (st_files st) ev = st_files st ->
  coherent fs0 (record ev st).
Proof.
  intros [Hh Hf] Hev Hw. unfold coherent, record. cbn [st_log st_heap st_files].
  rewrite replay_app, replay_files_app. cbn [fold_left].
  rewrite Hh, Hf. split; assumption.
Qed.

(** The log accounts for the heap and the files, whatever the program. *)
Lemma run_coherent (engine : Engine) (fs : files) (p : program) :
  coherent fs (final engine fs p).
Proof.
  pose (R := fun st st' : state => coherent fs st -> coherent fs st').
  assert (Hrun : preserves R (run engine p)).
  { apply (preserves_run engine R) with (ok := fun _ => true) (may_assign := true).
    - intros st H. exact H.
    - intros a b c Hab Hbc H. exact (Hbc (Hab H)).
    - intros c st [Hh Hf]. unfold alloc, coherent, record.
      cbn [snd st_log st_heap st_files].
      rewrite replay_app, replay_files_app. cbn [fold_left apply_event apply_write].
      rewrite Hh, Hf. split; reflexivity.
    - intros callee args _ st Hst. unfold call.
      destruct (existsb (String.eqb callee) (st_imports st)).
      + destruct (engine (st_files st) (st_heap st) callee args); cbn [snd];
          apply coherent_record; (exact Hst || reflexivity).
      + destruct (String.eqb callee read_file).
        * destruct args as [| [| p' | l | c a] rest]; cbn [snd]; try exact Hst.
          destruct (assoc p' (st_files st)); cbn [snd];
            apply coherent_record; (exact Hst || reflexivity).
        * destruct (String.eqb callee write_file); [| exact Hst].
          destruct args as [| [| p' | l | c a] [| [| text | l' | c' a'] rest]];
            cbn [snd]; try exact Hst.
          destruct Hst as [Hh Hf]. unfold coherent, record.
          cbn [st_log st_heap st_files].
          rewrite replay_app, replay_files_app.
          cbn [fold_left apply_event apply_write].
          rewrite Hh, Hf. split; reflexivity.
    - intros _ t k v st Hst. unfold set_field.
      destruct t as [| s | l | c a]; cbn [snd]; try exact Hst.
      destruct (nth_error (st_heap st) l) as [[fields | items] |] eqn:Hl;
        cbn [snd]; try exact Hst.
      destruct Hst as [Hh Hf]. unfold coherent, record.
      cbn [st_log st_heap st_files].
      rewrite replay_app, replay_files_app.
      cbn [fold_left apply_event apply_write].
      rewrite Hh, Hf, Hl. split; reflexivity.
    - intros st imports consts H. exact H.
    - intros v st Hst. apply coherent_record; (exact Hst || reflexivity).
    - induction p as [| s p IH]; [reflexivity |].
      cbn [forallb]. rewrite IH, Bool.andb_true_r.
      unfold stmt_ok. cbn [orb]. rewrite Bool.andb_true_r.
      assert (He : forall e, callees_ok (fun _ => true) e = true).
      { induction e as [s' | x | fields IHe | items IHe | callee args IHe]
          using expr_nested_ind; cbn [callees_ok]; try reflexivity;
          apply forallb_forall; intros a Ha;
          exact (proj1 (Forall_forall _ _) IHe a Ha). }
      induction s as [d named src | e | x e | target key rhs | e
                     | body IHb handler IHh | first IH1 second IH2];
        cbn [stmt_callees_ok]; rewrite ?He, ?IHb, ?IHh, ?IH1, ?IH2; reflexivity. }
  apply (Hrun (boot fs)). split; reflexivity.
Qed.

Lemma mutations_app (evs1 evs2 : list event) :
  mutations (evs1 ++ evs2) = (mutations evs1 ++ mutations evs2)%list.
Proof. unfold mutations. apply flat_map_app. Qed.

Lemma writes_app (evs1 evs2 : list event) :
  writes (evs1 ++ evs2) = (writes evs1 ++ writes evs2)%list.
Proof. unfold writes. apply flat_map_app. Qed.

(** A program without field assignment logs none. *)
Lemma run_never_assigns (engine : Engine) (fs : files) (p : program) :
  forallb (stmt_ok (fun _ => true) false) p = true ->
  mutations (trace engine fs p) = [].
Proof.
  intros Hp.
  pose (R := fun st st' : state =>
               mutations (st_log st') = mutations (st_log st)).
  assert (Hrec : forall ev st, mutations [ev] = [] -> R st (record ev st)).
  { intros ev st Hev. unfold R, record. cbn [st_log].
    rewrite mutations_app, Hev. apply app_nil_r. }
  assert (Halloc : forall c, preserves R (alloc c)).
  { intros c st. unfold R, alloc, record. cbn [snd st_log].
    rewrite mutations_app. apply app_nil_r. }
  assert (Hrun : preserves R (run engine p)).
  { apply (preserves_run engine R) with (ok := fun _ => true) (may_assign := false).
    - intros st. reflexivity.
    - intros a b c Hab Hbc. unfold R in *. congruence.
    - exact Halloc.
    - intros callee args _ st. unfold call.
      destruct (existsb (String.eqb callee) (st_imports st)).
      + destruct (engine (st_files st) (st_heap st) callee args); cbn [snd];
          apply Hrec; reflexivity.
      + destruct (String.eqb callee read_file).
        * destruct args as [| [| p' | l | c a] rest]; cbn [snd];
            try reflexivity.
          destruct (assoc p' (st_files st)); cbn [snd]; apply Hrec; reflexivity.
        * destruct (String.eqb callee write_file); [| reflexivity].
          destruct args as [| [| p' | l | c a] [| [| text | l' | c' a'] rest]];
            cbn [snd]; try reflexivity.
          unfold R, record. cbn [st_log].
          rewrite mutations_app. apply app_nil_r.
    - discriminate.
    - intros st imports consts. reflexivity.
    - intros v st. apply Hrec. reflexivity.
    - exact Hp. }
  exact (Hrun (boot fs)).
Qed.

(** A program that never calls the write builtin leaves the files alone. *)
Lemma run_never_writes (engine : Engine) (fs : files) (p : program) :
  forallb (stmt_ok (fun c => negb (String.eqb c write_file)) true) p = true ->
  st_files (final engine fs p) = fs /\ writes (trace engine fs p) = [].
Proof.
  intros Hp.
  pose (R := fun st st' : state =>
               st_files st' = st_files st
               /\ writes (st_log st') = writes (st_log st)).
  assert (Hrec : forall ev st, writes [ev] = [] -> R st (record ev st)).
  { intros ev st Hev. unfold R, record. cbn [st_log st_files].
    rewrite writes_app, Hev. split; [reflexivity | apply app_nil_r]. }
  assert (Halloc : forall c, preserves R (alloc c)).
  { intros c st. unfold R, alloc, record. cbn [snd st_log st_files].
    rewrite writes_app. split; [reflexivity | apply app_nil_r]. }
  assert (Hrun : preserves R (run engine p)).
  { apply (preserves_run engine R)
      with (ok := fun c => negb (String.eqb c write_file)) (may_assign := true).
    - intros st. split; reflexivity.
    - intros a b c [Hab Hab'] [Hbc Hbc']. split; congruence.
    - exact Halloc.
    - intros callee args Hok st. unfold call.
      apply Bool.negb_true_iff in Hok. rewrite Hok.
      destruct (existsb (String.eqb callee) (st_imports st)).
      + destruct (engine (st_files st) (st_heap st) callee args); cbn [snd];
          apply Hrec; reflexivity.
      + destruct (String.eqb callee read_file); [| split; reflexivity].
        destruct args as [| [| p' | l | c a] rest]; cbn [snd];
          try (split; reflexivity).
        destruct (assoc p' (st_files st)); cbn [snd]; apply Hrec; reflexivity.
    - intros _ t k v st. unfold set_field.
      destruct t as [| s | l | c a]; cbn [snd]; try (split; reflexivity).
      destruct (nth_error (st_heap st) l) as [[fields | items] |];
        cbn [snd]; try (split; reflexivity).
      unfold R, record. cbn [st_log st_files].
      rewrite writes_app. split; [reflexivity | apply app_nil_r].
    - intros st imports consts. split; reflexivity.
    - intros v st. apply Hrec. reflexivity.
    - exact Hp. }
  exact (Hrun (boot fs)).
Qed.

Lemma writes_firstn (evs : list event) (n : nat) :
  writes evs = [] -> writes (firstn n evs) = [].
Proof.
  intros H. rewrite <- (firstn_skipn n evs), writes_app in H.
  apply app_eq_nil in H. exact (proj1 H).
Qed.

Lemma replay_files_no_writes (fs : files) (evs : list event) :
  writes evs = [] -> replay_files fs evs = fs.
Proof.
  induction evs as [| ev evs IH] using rev_ind; intros H; [reflexivity |].
  rewrite writes_app in H. apply app_eq_nil in H as [H1 H2].
  rewrite replay_files_app, (IH H1). cbn [fold_left].
  destruct ev; try reflexivity. discriminate.
Qed.

(** Without assignment events the heap only grows. *)
Lemma replay_grows (evs : list event) :
  mutations evs = [] ->
  forall h, exists more, fold_left apply_event evs h = (h ++ more)%list.
Proof.
  induction evs as [| ev evs IH]; intros H h.
  - exists []. symmetry. apply app_nil_r.
  - change (ev :: evs) with ([ev] ++ evs)%list in H.
    rewrite mutations_app in H. apply app_eq_nil in H as [H1 H2].
    cbn [fold_left]. destruct (IH H2 (apply_event h ev)) as [more Hmore].
    rewrite Hmore. destruct ev; try (exists more; reflexivity).
    + cbn [apply_event]. exists (c :: more). rewrite <- app_assoc. reflexivity.
    + discriminate.
Qed.

(** So a cell, once allocated, is the same after every later event. *)
Lemma cell_persists (evs : list event) (n l : nat) (c : cell) :
  mutations evs = [] ->
  nth_error (replay (firstn n evs)) l = Some c ->
  nth_error (replay evs) l = Some c.
Proof.
  intros H Hl. rewrite <- (firstn_skipn n evs) in H |- * at 1.
  rewrite mutations_app in H. apply app_eq_nil in H as [_ H2].
  rewrite replay_app. destruct (replay_grows _ H2 (replay (firstn n evs)))
    as [more ->].
  rewrite nth_error_app1; [exact Hl |].
  apply nth_error_Some. congruence.
Qed.

Lemma config_denotes : literal_value config = Some config_value.
Proof. reflexivity. Qed.

(** The run of [main.js], step by step: the two link objects, the array of
    links, the call to [ga], the array of middlewares, the configuration and
    the call to [blog]. *)
Lemma run_main_js (engine : Engine) (fs : files) :
  run engine main_js (boot fs)
  = if engine fs (firstn 3 main_heap) "ga" [VStr "G-C0SCBZQ6ME"]
    then (if engine fs main_heap "blog" [VRef 4]
          then Ok tt else Err (EngineFailure "blog"),
          mkState ["blog"; "ga"] [] main_heap fs main_trace)
    else (Err (EngineFailure "ga"),
          mkState ["blog"; "ga"] [] (firstn 3 main_heap) fs
                  (firstn 4 main_trace)).
Proof.
  vm_compute.
  destruct (engine fs _ _ _); [destruct (engine fs _ _ _) |]; reflexivity.
Qed.

Lemma run_main_js_ga (engine : Engine) (fs : files) :
  (forall f h args, engine f h "ga" args = true) ->
  trace engine fs main_js = main_trace
  /\ st_heap (final engine fs main_js) = main_heap
  /\ st_files (final engine fs main_js) = fs.
Proof.
  intros Hga. unfold trace, final. rewrite run_main_js, Hga.
  repeat split.
Qed.

Lemma main_heap_reads_config : reads_as main_heap (VRef 4) config_value.
Proof. exists 4. reflexivity. Qed.

Lemma trace_main_js (engine : Engine) (fs : files) :
  trace engine fs main_js
  = (if ga_returns engine fs then main_trace else firstn 4 main_trace)
  /\ st_heap (final engine fs main_js)
     = (if ga_returns engine fs then main_heap else firstn 3 main_heap).
Proof.
  unfold trace, final, ga_returns. rewrite run_main_js.
  destruct (engine fs _ _ _); split; reflexivity.
Qed.

(** C1, as stated, with an engine whose [ga] fails: the run ends inside the
    object literal and [blog] is not called at all. *)
Lemma blog_not_called_when_ga_fails :
  calls_to "blog" (trace ga_fails repository_files main_js) = []
  /\ length (calls_to "blog" (trace ga_fails repository_files main_js)) <> 1.
Proof. split; [vm_compute; reflexivity | vm_compute; discriminate]. Qed.

(** C1, amended: [main.js] has one call of the entry point [blog], on one
    object literal whose fields are exactly [title], [author], [avatar],
    [avatarClass], [links], [lang] and [middlewares]; five of them are
    strings, [links] is a list of objects with exactly [title] and [url],
    and [middlewares] is a list.  A run calls [blog] at most once: once, on
    an object that reads as the literal, when the call of [ga] inside the
    literal returns, and not at all when that call fails. *)
Theorem main_js_calls_blog_once_if_ga_returns (engine : Engine) (fs : files) :
  call_sites "blog" main_js = [[config]]
  /\ object_keys config
     = Some ["title"; "author"; "avatar"; "avatarClass"; "links"; "lang";
             "middlewares"]
  /\ Forall (fun k => exists s, field k config = Some (EStr s))
            ["title"; "author"; "avatar"; "avatarClass"; "lang"]
  /\ (exists links,
        field "links" config = Some (EArr links)
        /\ Forall (fun link => object_keys link = Some ["title"; "url"]) links)
  /\ (exists hooks, field "middlewares" config = Some (EArr hooks))
  /\ literal_value config = Some config_value
  /\ length (calls_to "blog" (trace engine fs main_js)) <= 1
  /\ (ga_returns engine fs = true ->
      exists cfg,
        calls_to "blog" (trace engine fs main_js) = [[cfg]]
        /\ reads_as (st_heap (final engine fs main_js)) cfg config_value)
  /\ (ga_returns engine fs = false ->
      calls_to "blog" (trace engine fs main_js) = []).
Proof.
  destruct (trace_main_js engine fs) as [Htrace Hheap].
  split; [reflexivity |]. split; [reflexivity |].
  split; [repeat constructor; eexists; reflexivity |].
  split; [eexists; split; [reflexivity | repeat constructor] |].
  split; [eexists; reflexivity |].
  split; [reflexivity |].
  rewrite Htrace, Hheap.
  split; [destruct (ga_returns engine fs); cbn; lia |].
  split; intros Hga; rewrite Hga; [| reflexivity].
  exists (VRef 4). split; [reflexivity | exact main_heap_reads_config].
Qed.

Lemma main_js_calls_blog_once_if_ga_returns_witness :
  ga_returns well_behaved repository_files = true
  /\ exists cfg,
       calls_to "blog" (trace well_behaved repository_files main_js) = [[cfg]]
       /\ reads_as (st_heap (final well_behaved repository_files main_js))
                   cfg config_value.
Proof.
  split; [reflexivity |].
  destruct (main_js_calls_blog_once_if_ga_returns well_behaved repository_files)
    as (_ & _ & _ & _ & _ & _ & _ & Hrun & _).
  exact (Hrun eq_refl).
Defined.











(** ** More on the route samples *)

Lemma string_length_app (a b : string) :
  String.length (a ++ b) = String.length a + String.length b.
Proof. induction a as [| x a IH]; cbn [append String.length]; [| rewrite IH]; reflexivity. Qed.

Lemma string_app_inv_head (a x y : string) : a ++ x = a ++ y -> x = y.
Proof.
  induction a as [| c a IH]; cbn [append]; intros H; [exact H |].
  injection H as H. exact (IH H).
Qed.

Lemma string_app_inv_tail (c x y : string) : x ++ c = y ++ c -> x = y.
Proof.
  revert y. induction x as [| a x IH]; intros [| b y] H; cbn [append] in H.
  - reflexivity.
  - apply (f_equal String.length) in H.
    cbn [String.length] in H. rewrite string_length_app in H. lia.
  - apply (f_equal String.length) in H.
    cbn [String.length] in H. rewrite string_length_app in H. lia.
  - injection H as Hab H. rewrite Hab, (IH y H). reflexivity.
Qed.

(** Two segments followed by a slash and more: the first slash tells where
    the segment ends. *)
Lemma segment_split (a b x y : string) :
  no_slash a = true -> no_slash b = true ->
  a ++ "/" ++ x = b ++ "/" ++ y -> a = b /\ x = y.
Proof.
  revert b. induction a as [| c a IH]; intros [| d b] Ha Hb H;
    cbn [append no_slash] in *.
  - injection H as H. split; [reflexivity | exact H].
  - injection H as Hd _. subst d.
    apply Bool.andb_true_iff in Hb as [Hd _]. discriminate.
  - injection H as Hc _. subst c.
    apply Bool.andb_true_iff in Ha as [Hc _]. discriminate.
  - injection H as Hcd H. subst d.
    apply Bool.andb_true_iff in Ha as [_ Ha].
    apply Bool.andb_true_iff in Hb as [_ Hb].
    destruct (IH b Ha Hb H) as [-> ->]. split; reflexivity.
Qed.

(** X1: in the "With dynamic parameters" sample two ids give the same
    route only if they are the same id, no id gives the listing route
    ["/users"], and the variant that takes an argument object gives the
    same routes. *)
Theorem dynamic_byId_distinct :
  (forall id1 id2 : string,
     DynamicParams.byId (DynamicParams.users DynamicParams.ROUTES) id1
     = DynamicParams.byId (DynamicParams.users DynamicParams.ROUTES) id2 ->
     id1 = id2)
  /\ (forall id : string,
        DynamicParams.byId (DynamicParams.users DynamicParams.ROUTES) id
        <> DynamicParams.index (DynamicParams.users DynamicParams.ROUTES))
  /\ forall id : string,
       DynamicParamsObject.byId
         (DynamicParamsObject.users DynamicParamsObject.ROUTES)
         (DynamicParamsObject.mkArgs id)
       = DynamicParams.byId (DynamicParams.users DynamicParams.ROUTES) id.
Proof.
  split; [| split].
  - intros id1 id2 H. exact (string_app_inv_head "/users/" id1 id2 H).
  - intros id H. discriminate H.
  - intros id. reflexivity.
Qed.

Lemma dynamic_byId_distinct_witness :
  DynamicParams.byId (DynamicParams.users DynamicParams.ROUTES) "1234"
  = "/users/1234"
  /\ "1234" = "1234".
Proof.
  split; [reflexivity |].
  exact (proj1 dynamic_byId_distinct "1234" "1234" eq_refl).
Defined.

(** X2: in the "With multiple dynamic parameters" sample the chained route
    is the one-parameter route followed by a slash and the slug; when the
    ids have no slash in them, equal routes come from equal ids and equal
    slugs; with a slash in an id two different pairs can share a route. *)
Theorem multiple_bySlug_routes :
  (forall id slug : string,
     MultipleParams.bySlug
       (MultipleParams.byId (MultipleParams.users MultipleParams.ROUTES) id)
       slug
     = DynamicParams.byId (DynamicParams.users DynamicParams.ROUTES) id
       ++ "/" ++ slug)
  /\ (forall id1 id2 slug1 slug2 : string,
        no_slash id1 = true -> no_slash id2 = true ->
        MultipleParams.bySlug
          (MultipleParams.byId (MultipleParams.users MultipleParams.ROUTES) id1)
          slug1
        = MultipleParams.bySlug
            (MultipleParams.byId (MultipleParams.users MultipleParams.ROUTES) id2)
            slug2 ->
        id1 = id2 /\ slug1 = slug2)
  /\ MultipleParams.bySlug
       (MultipleParams.byId (MultipleParams.users MultipleParams.ROUTES) "a/b")
       "c"
     = MultipleParams.bySlug
         (MultipleParams.byId (MultipleParams.users MultipleParams.ROUTES) "a")
         "b/c".
Proof.
  split; [| split].
  - intros id slug.
    cbn [MultipleParams.bySlug MultipleParams.byId MultipleParams.users
         MultipleParams.ROUTES DynamicParams.byId DynamicParams.users
         DynamicParams.ROUTES].
    rewrite string_app_assoc. reflexivity.
  - intros id1 id2 slug1 slug2 H1 H2 H.
    cbn [MultipleParams.bySlug MultipleParams.byId MultipleParams.users
         MultipleParams.ROUTES] in H.
    apply string_app_inv_head in H. exact (segment_split _ _ _ _ H1 H2 H).
  - reflexivity.
Qed.

Lemma multiple_bySlug_routes_witness :
  no_slash "1234" = true
  /\ MultipleParams.bySlug
       (MultipleParams.byId (MultipleParams.users MultipleParams.ROUTES) "1234")
       "something"
     = "/users/1234/something"
  /\ "1234" = "1234" /\ "something" = "something".
Proof.
  split; [reflexivity |]. split; [reflexivity |].
  exact (proj1 (proj2 multiple_bySlug_routes) "1234" "1234" "something"
           "something" eq_refl eq_refl eq_refl).
Defined.

(** X3: the route with an optional slug is the two-parameter route of the
    "With multiple dynamic parameters" sample, taken at the empty slug when
    the slug is left out. *)
Theorem optional_byId_is_bySlug (id : string) (slug : optional string) :
  OptionalParams.byId (OptionalParams.users OptionalParams.ROUTES)
    (OptionalParams.mkArgs id slug)
  = MultipleParams.bySlug
      (MultipleParams.byId (MultipleParams.users MultipleParams.ROUTES) id)
      (with_default EmptyString slug).
Proof.
  cbn [OptionalParams.byId OptionalParams.users OptionalParams.ROUTES
       OptionalParams.id OptionalParams.slug MultipleParams.bySlug
       MultipleParams.byId MultipleParams.users MultipleParams.ROUTES].
  destruct slug as [[| c s] |]; reflexivity.
Qed.

(** X4: [joinIfPresent] gives the base back exactly when its second
    argument is [undefined] or empty; otherwise the result is longer than
    the base by the length of that argument. *)
Theorem joinIfPresent_base_iff (base : string) (str : optional string) :
  (OptionalParams.joinIfPresent base str = base <-> truthy str = false)
  /\ String.length (OptionalParams.joinIfPresent base str)
     = String.length base
       + (if truthy str then String.length (to_string str) else 0).
Proof.
  unfold OptionalParams.joinIfPresent.
  destruct str as [[| c s] |]; cbn [truthy is_empty negb to_string].
  - split; [split; reflexivity | lia].
  - split; [| apply string_length_app].
    split; [| discriminate]. intros H.
    apply (f_equal String.length) in H. rewrite string_length_app in H.
    cbn [String.length] in H. lia.
  - split; [split; reflexivity | lia].
Qed.

Lemma joinIfPresent_base_iff_witness :
  OptionalParams.joinIfPresent "/" (Some EmptyString) = "/".
Proof.
  apply (proj2 (proj1 (joinIfPresent_base_iff "/" (Some EmptyString)))).
  reflexivity.
Defined.

Lemma getRoutes_index (locale : optional string) :
  index (users (GlobalParams.getRoutes locale))
  = (if str_eq (with_default "en" locale) "en" then EmptyString
     else "/" ++ with_default "en" locale) ++ "/users".
Proof. reflexivity. Qed.

(** X5: two calls of [getRoutes] give the same [users.index] exactly when
    their locales are the same once the default ["en"] is filled in; and
    for every locale [users.byId(id)] is [users.index], a slash and the
    id. *)
Theorem getRoutes_same_index_iff (locale1 locale2 : optional string) :
  (index (users (GlobalParams.getRoutes locale1))
   = index (users (GlobalParams.getRoutes locale2))
   <-> with_default "en" locale1 = with_default "en" locale2)
  /\ forall id : string,
       byId (users (GlobalParams.getRoutes locale1)) id
       = index (users (GlobalParams.getRoutes locale1)) ++ "/" ++ id.
Proof.
  split.
  - rewrite !getRoutes_index.
    set (a := with_default "en" locale1). set (b := with_default "en" locale2).
    split; [| intros ->; reflexivity].
    unfold str_eq.
    destruct (String.eqb_spec a "en") as [Ha | Ha];
      destruct (String.eqb_spec b "en") as [Hb | Hb]; intros H.
    + congruence.
    + cbn [append] in H. injection H as H.
      apply (f_equal String.length) in H. rewrite string_length_app in H.
      cbn [String.length] in H. lia.
    + cbn [append] in H. injection H as H.
      apply (f_equal String.length) in H. rewrite string_length_app in H.
      cbn [String.length] in H. lia.
    + cbn [append] in H. injection H as H.
      exact (string_app_inv_tail _ _ _ H).
  - intros id. unfold GlobalParams.getRoutes. cbn [index byId users].
    rewrite string_app_assoc. reflexivity.
Qed.

Lemma getRoutes_same_index_iff_witness :
  index (users (GlobalParams.getRoutes None))
  = index (users (GlobalParams.getRoutes (Some "en"))).
Proof.
  apply (proj2 (proj1 (getRoutes_same_index_iff None (Some "en")))).
  reflexivity.
Defined.

(** X6: for every string that [useLocale] returns, every route of
    [useRoutes()] is the route of [getRoutes] at that locale with one more
    slash in front, and so is never that route. *)
Theorem useRoutes_extra_slash (useLocale : unit -> string) :
  index (users (HooksInside.useRoutes useLocale tt))
  = "/" ++ index (users (HooksInside.getRoutes (Some (useLocale tt))))
  /\ (forall id : string,
        byId (users (HooksInside.useRoutes useLocale tt)) id
        = "/" ++ byId (users (HooksInside.getRoutes (Some (useLocale tt)))) id)
  /\ index (users (HooksInside.useRoutes useLocale tt))
     <> index (users (HooksInside.getRoutes (Some (useLocale tt)))).
Proof.
  assert (Hroutes :
            index (users (HooksInside.useRoutes useLocale tt))
            = "/" ++ index (users (HooksInside.getRoutes (Some (useLocale tt))))
            /\ forall id : string,
                 byId (users (HooksInside.useRoutes useLocale tt)) id
                 = "/" ++ byId (users (HooksInside.getRoutes
                                         (Some (useLocale tt)))) id).
  { unfold HooksInside.useRoutes, HooksInside.getRoutes.
    cbn [with_default index byId users].
    destruct (str_eq (useLocale tt) "en").
    - split; [| intros id]; reflexivity.
    - assert (Hne : "/" ++ useLocale tt <> "en")
        by (cbn [append]; discriminate).
      rewrite (str_eq_false _ _ Hne). cbn [append].
      split; [| intros id]; reflexivity. }
  destruct Hroutes as [Hindex HbyId].
  split; [exact Hindex |]. split; [exact HbyId |].
  rewrite Hindex. intros H.
  apply (f_equal String.length) in H. cbn [append String.length] in H. lia.
Qed.

Lemma settings_account_clash (a b : string) :
  a ++ "/settings" <> b ++ "/account".
Proof.
  revert b. induction a as [| x a IH]; intros [| y b] H; cbn [append] in H.
  - discriminate H.
  - injection H as _ H. destruct b as [| z b]; [discriminate H |].
    apply (f_equal String.length) in H. cbn [append String.length] in H.
    rewrite string_length_app in H. cbn [String.length] in H. lia.
  - injection H as _ H.
    apply (f_equal String.length) in H. rewrite string_length_app in H.
    cbn [String.length] in H. lia.
  - injection H as _ H. exact (IH b H).
Qed.

(** X7: in the "With mid-route dynamic parameters" sample the settings and
    account routes are the one-parameter route followed by ["/settings"]
    and ["/account"]; two ids share a settings route only if they are the
    same id; and no settings route is an account route, whatever the two
    ids. *)
Theorem midroute_settings_account :
  (forall id : string,
     MidRoute.settings
       (MidRoute.byId (MidRoute.users MidRoute.ROUTES) (MidRoute.mkArgs id))
     = DynamicParams.byId (DynamicParams.users DynamicParams.ROUTES) id
       ++ "/settings"
     /\ MidRoute.account
          (MidRoute.byId (MidRoute.users MidRoute.ROUTES) (MidRoute.mkArgs id))
        = DynamicParams.byId (DynamicParams.users DynamicParams.ROUTES) id
          ++ "/account")
  /\ (forall id1 id2 : string,
        MidRoute.settings
          (MidRoute.byId (MidRoute.users MidRoute.ROUTES) (MidRoute.mkArgs id1))
        = MidRoute.settings
            (MidRoute.byId (MidRoute.users MidRoute.ROUTES)
               (MidRoute.mkArgs id2)) ->
        id1 = id2)
  /\ forall id1 id2 : string,
       MidRoute.settings
         (MidRoute.byId (MidRoute.users MidRoute.ROUTES) (MidRoute.mkArgs id1))
       <> MidRoute.account
            (MidRoute.byId (MidRoute.users MidRoute.ROUTES)
               (MidRoute.mkArgs id2)).
Proof.
  split; [| split].
  - intros id.
    cbn [MidRoute.settings MidRoute.account MidRoute.byId MidRoute.users
         MidRoute.ROUTES MidRoute.id DynamicParams.byId DynamicParams.users
         DynamicParams.ROUTES].
    rewrite !string_app_assoc. split; reflexivity.
  - intros id1 id2 H.
    cbn [MidRoute.settings MidRoute.byId MidRoute.users MidRoute.ROUTES
         MidRoute.id] in H.
    apply string_app_inv_head in H. exact (string_app_inv_tail _ _ _ H).
  - intros id1 id2 H.
    cbn [MidRoute.settings MidRoute.account MidRoute.byId MidRoute.users
         MidRoute.ROUTES MidRoute.id] in H.
    apply string_app_inv_head in H. exact (settings_account_clash _ _ H).
Qed.

Lemma midroute_settings_account_witness :
  MidRoute.settings
    (MidRoute.byId (MidRoute.users MidRoute.ROUTES) (MidRoute.mkArgs "1234"))
  = "/users/1234/settings"
  /\ "1234" = "1234".
Proof.
  split; [reflexivity |].
  exact (proj1 (proj2 midroute_settings_account) "1234" "1234" eq_refl).
Defined.

(** X8: for the public URL built from user data, two users whose usernames
    have no slash in them share a URL only if they have the same username
    and the same id text. *)
Theorem byUserData_injective (UserData : Type)
  (username id : UserData -> string) (u1 u2 : UserData) :
  no_slash (username u1) = true ->
  no_slash (username u2) = true ->
  PublicUrl.byUserData UserData
    (PublicUrl.publicUrl UserData
       (PublicUrl.user UserData (PublicUrl.ROUTES UserData username id))) u1
  = PublicUrl.byUserData UserData
      (PublicUrl.publicUrl UserData
         (PublicUrl.user UserData (PublicUrl.ROUTES UserData username id))) u2 ->
  username u1 = username u2 /\ id u1 = id u2.
Proof.
  intros H1 H2 H.
  cbn [PublicUrl.byUserData PublicUrl.publicUrl PublicUrl.user
       PublicUrl.ROUTES] in H.
  apply string_app_inv_head in H. exact (segment_split _ _ _ _ H1 H2 H).
Qed.

Lemma byUserData_injective_witness :
  PublicUrl.byUserData (string * string)
    (PublicUrl.publicUrl (string * string)
       (PublicUrl.user (string * string)
          (PublicUrl.ROUTES (string * string) fst snd)))
    ("antoni", "1234")
  = "/u/antoni/1234"
  /\ "antoni" = "antoni" /\ "1234" = "1234".
Proof.
  split; [reflexivity |].
  exact (byUserData_injective (string * string) fst snd
           ("antoni", "1234") ("antoni", "1234") eq_refl eq_refl eq_refl).
Defined.
